(** * Vehicle-listing text extraction: src/utils/vehicleParser.ts

    A shallow embedding of the OCR post-processing pipeline
    [fixOCRErrors], [splitMakeModel], [cleanText], [extractYear] and
    [parseVehicles].  A JavaScript string is a list of UTF-16 code units,
    each a natural number; the regular expressions of the source are
    written out as scans over that list (no [u] flag, so [\w], [\d] and
    [\b] are the ASCII classes of ECMAScript). *)

From Stdlib Require Import List NArith ZArith Ascii Bool Lia.
From Stdlib Require String Permutation.
Import String.StringSyntax.
Delimit Scope string_scope with string.
Import ListNotations.

(** ** Strings *)

Definition char := N.
Definition jstr := list char.

(** String literals of the examples (ASCII only). *)
Definition js (s : String.string) : jstr :=
  map (fun a => N_of_ascii a) (String.list_ascii_of_string s).

(** ** Character classes of ECMAScript regular expressions *)

(** [\d] *)
Definition is_digit (c : char) : bool := (48 <=? c)%N && (c <=? 57)%N.

(** [[A-Z]] *)
Definition is_AZ (c : char) : bool := (65 <=? c)%N && (c <=? 90)%N.

(** [[a-z]] *)
Definition is_az (c : char) : bool := (97 <=? c)%N && (c <=? 122)%N.

(** [\w] = [[A-Za-z0-9_]] *)
Definition is_word (c : char) : bool :=
  is_digit c || is_AZ c || is_az c || (c =? 95)%N.

(** [\s], which is also the set removed by [String.prototype.trim]:
    WhiteSpace and LineTerminator code units. *)
Definition is_ws (c : char) : bool :=
  ((9 <=? c)%N && (c <=? 13)%N) || (c =? 32)%N || (c =? 160)%N
  || (c =? 5760)%N || ((8192 <=? c)%N && (c <=? 8202)%N)
  || (c =? 8232)%N || (c =? 8233)%N || (c =? 8239)%N || (c =? 8287)%N
  || (c =? 12288)%N || (c =? 65279)%N.

(** [[\n\r]] *)
Definition is_nl (c : char) : bool := (c =? 10)%N || (c =? 13)%N.

(** ** String operations of the JavaScript runtime *)

(** [String.prototype.toUpperCase], with the case table of the Basic
    Latin and Latin-1 Supplement blocks (including the expansions
    U+00DF -> "SS", U+00B5 -> U+039C and U+00FF -> U+0178); code units outside these
    blocks are kept as they are in this model. *)
Definition upper_char (c : char) : jstr :=
  if is_az c then [(c - 32)%N]
  else if (c =? 181)%N then [924%N]
  else if (c =? 223)%N then [83%N; 83%N]
  else if (224 <=? c)%N && (c <=? 254)%N && negb (c =? 247)%N then [(c - 32)%N]
  else if (c =? 255)%N then [376%N]
  else [c].

Definition toUpperCase (s : jstr) : jstr := flat_map upper_char s.

Fixpoint drop_ws (s : jstr) : jstr :=
  match s with
  | [] => []
  | c :: t => if is_ws c then drop_ws t else s
  end.

(** [String.prototype.trim] *)
Definition trim (s : jstr) : jstr := rev (drop_ws (rev (drop_ws s))).

(** [s.startsWith(p)] *)
Fixpoint startsWith (s p : jstr) {struct p} : bool :=
  match p, s with
  | [], _ => true
  | x :: p', y :: s' => (x =? y)%N && startsWith s' p'
  | _ :: _, [] => false
  end.

(** [s.includes(p)] *)
Fixpoint includes (s p : jstr) : bool :=
  match s with
  | [] => startsWith [] p
  | _ :: t => startsWith s p || includes t p
  end.

(** [s.split(re)] for a regular expression [re] = [[sep]+]: maximal runs
    of separator code units delimit the pieces; a separator at either end
    gives an empty first or last piece, and [""] splits into [[""]].
    [cur] holds the current piece reversed, [in_sep] tells whether the
    previous code unit was a separator. *)
Fixpoint split_runs_aux (sep : char -> bool) (cur : jstr) (in_sep : bool)
    (s : jstr) : list jstr :=
  match s with
  | [] => [rev cur]
  | c :: t =>
      if sep c then
        if in_sep then split_runs_aux sep [] true t
        else rev cur :: split_runs_aux sep [] true t
      else split_runs_aux sep (c :: cur) false t
  end.

Definition split_runs (sep : char -> bool) (s : jstr) : list jstr :=
  split_runs_aux sep [] false s.

(** [s.replace(/[sep]+/g, r)] for a one-code-unit [r]. *)
Fixpoint replace_runs (sep : char -> bool) (r : char) (in_run : bool)
    (s : jstr) : jstr :=
  match s with
  | [] => []
  | c :: t =>
      if sep c then
        if in_run then replace_runs sep r true t
        else r :: replace_runs sep r true t
      else c :: replace_runs sep r false t
  end.

(** [s.replace(/[cls]/g, r)] for a single-code-unit class. *)
Definition replace_class (cls : char -> bool) (r : char) (s : jstr) : jstr :=
  map (fun c => if cls c then r else c) s.

(** [arr.join(sep)] *)
Fixpoint join (sep : jstr) (l : list jstr) : jstr :=
  match l with
  | [] => []
  | [x] => x
  | x :: t => x ++ sep ++ join sep t
  end.

(** Does the rest of the string start with a [\w] code unit?  (Used for
    the right side of [\b].) *)
Definition starts_word (s : jstr) : bool :=
  match s with
  | [] => false
  | d :: _ => is_word d
  end.

(** ** fixOCRErrors *)

(** [fixed.replace(/\bJOI\b/g, '201')]; [prev_word] tells whether the
    code unit before the current position is a [\w] code unit, so that
    [\b] before [J] holds iff it is [false]. *)
Fixpoint replace_JOI (prev_word : bool) (s : jstr) : jstr :=
  match s with
  | [] => []
  | c :: t =>
      match t with
      | c2 :: c3 :: rest =>
          if negb prev_word && (c =? 74)%N && (c2 =? 79)%N && (c3 =? 73)%N
             && negb (starts_word rest)
          then 50%N :: 48%N :: 49%N :: replace_JOI true rest
          else c :: replace_JOI (is_word c) t
      | _ => c :: replace_JOI (is_word c) t
      end
  end.

(** [fixed.replace(/\bO\b/g, '0')] *)
Fixpoint replace_O (prev_word : bool) (s : jstr) : jstr :=
  match s with
  | [] => []
  | c :: t =>
      if negb prev_word && (c =? 79)%N && negb (starts_word t)
      then 48%N :: replace_O true t
      else c :: replace_O (is_word c) t
  end.

Definition fixOCRErrors (text : jstr) : jstr :=
  let fixed := toUpperCase text in
  let fixed := replace_JOI false fixed in
  let fixed := replace_class (fun c => (c =? 167)%N) 50%N fixed in
  let fixed := replace_class (fun c => (c =? 124)%N) 49%N fixed in
  let fixed := replace_O false fixed in
  fixed.

(** ** splitMakeModel *)

Definition COMMON_MAKES : list jstr :=
  map js
  ["CHEVROLET"; "CHEVY"; "FORD"; "TOYOTA"; "HONDA"; "NISSAN"; "GMC"; "RAM";
   "JEEP"; "DODGE"; "HYUNDAI"; "KIA"; "MAZDA"; "SUBARU"; "VOLKSWAGEN"; "VW";
   "BMW"; "MERCEDES"; "AUDI"; "LEXUS"; "ACURA"; "INFINITI"; "CADILLAC";
   "BUICK"; "PONTIAC"; "LINCOLN"; "MERCURY"; "CHRYSLER"; "VOLVO"; "MITSUBISHI"]%string.

(** The [for (const make of COMMON_MAKES)] loop. *)
Fixpoint splitMakeModel_loop (upperText text : jstr) (makes : list jstr) : jstr :=
  match makes with
  | [] => text
  | make :: makes' =>
      if startsWith upperText make && Nat.ltb (length make) (length upperText)
      then make ++ [32%N] ++ skipn (length make) text
      else splitMakeModel_loop upperText text makes'
  end.

Definition splitMakeModel (text : jstr) : jstr :=
  let upperText := toUpperCase text in
  splitMakeModel_loop upperText text COMMON_MAKES.

(** ** cleanText *)

Definition cleanText (text : jstr) : jstr :=
  trim
    (replace_class (fun c => negb (is_word c || is_ws c || (c =? 45)%N)) 32%N
       (replace_runs is_ws 32%N false text)).

(** ** extractYear *)

(** [19\d{2}|20\d{2}] followed by [\b] at the start of [s]. *)
Definition four_here (s : jstr) : bool :=
  match s with
  | a :: b :: c :: d :: rest =>
      (((a =? 49)%N && (b =? 57)%N) || ((a =? 50)%N && (b =? 48)%N))
      && is_digit c && is_digit d && negb (starts_word rest)
  | _ => false
  end.

(** Leftmost match of [/\b(19\d{2}|20\d{2})\b/]: its index. *)
Fixpoint find_four (prev_word : bool) (i : nat) (s : jstr) : option nat :=
  match s with
  | [] => None
  | c :: t =>
      if negb prev_word && four_here s then Some i
      else find_four (is_word c) (S i) t
  end.

(** The lookahead [(?=[A-Z]|\s[A-Z])]. *)
Definition lookahead_letter (s : jstr) : bool :=
  match s with
  | u :: r =>
      is_AZ u || (is_ws u && match r with v :: _ => is_AZ v | [] => false end)
  | [] => false
  end.

(** [[^\d](\d{2})(?=[A-Z]|\s[A-Z])] at the start of [s]. *)
Definition two_here (s : jstr) : bool :=
  match s with
  | x :: a :: b :: rest =>
      negb (is_digit x) && is_digit a && is_digit b && lookahead_letter rest
  | _ => false
  end.

(** Leftmost match of [/[^\d](\d{2})(?=[A-Z]|\s[A-Z])/]: its index. *)
Fixpoint find_two (i : nat) (s : jstr) : option nat :=
  match s with
  | [] => None
  | _ :: t => if two_here s then Some i else find_two (S i) t
  end.

Definition digit_val (c : char) : N := (c - 48)%N.

(** [parseInt] of a string of decimal digits. *)
Definition parseInt (s : jstr) : N :=
  fold_left (fun acc c => acc * 10 + digit_val c)%N s 0%N.

Record YearData := { yd_year : jstr; yd_restOfText : jstr }.

Definition extractYear (text : jstr) : option YearData :=
  match find_four false 0 text with
  | Some idx =>
      Some {| yd_year := firstn 4 (skipn idx text);
              yd_restOfText := trim (skipn (idx + 4) text) |}
  | None =>
      match find_two 0 text with
      | Some idx =>
          (* match[0] = text[idx..idx+3), match[1] = text[idx+1..idx+3) *)
          let match0_length := 3 in
          let twoDigit := firstn 2 (skipn (idx + 1) text) in
          let yearNum := parseInt twoDigit in
          let fullYear :=
            if (0 <=? yearNum)%N && (yearNum <=? 30)%N
            then js "20"%string ++ twoDigit else js "19"%string ++ twoDigit in
          Some {| yd_year := fullYear;
                  yd_restOfText :=
                    trim (skipn (idx + match0_length - length twoDigit) text) |}
      | None => None
      end
  end.

(** ** parseVehicles *)

Record Vehicle := { year : jstr; make : jstr; model : jstr; fullText : jstr }.

(** [vehicleText.split(/\s+/).filter((word) => word.length > 0)] *)
Definition words_of (s : jstr) : list jstr :=
  filter (fun w => Nat.ltb 0 (length w)) (split_runs is_ws s).

(** The [if] that skips lines not looking like vehicle entries. *)
Definition skip_line (trimmedLine : jstr) : bool :=
  Nat.ltb (length trimmedLine) 5 || includes trimmedLine (js "YARD"%string)
  || includes trimmedLine (js "ROW"%string) || includes trimmedLine (js "LOCAT"%string)
  || includes trimmedLine (js "Vehicle"%string).

(** The body of the [for (const line of lines)] loop, for a given skip
    test: the records it pushes (none or one). *)
Definition parse_line_with (skip : jstr -> bool) (line : jstr) : list Vehicle :=
  let trimmedLine := trim line in
  if skip trimmedLine then []
  else
    match extractYear trimmedLine with
    | Some yd =>
        let year := yd_year yd in
        let vehicleText := splitMakeModel (yd_restOfText yd) in
        let vehicleText := cleanText vehicleText in
        let words := words_of vehicleText in
        if Nat.leb 2 (length words) then
          let make := hd [] words in
          let model := join [32%N] (tl words) in
          [{| year := year; make := make; model := model;
              fullText := year ++ [32%N] ++ make ++ [32%N] ++ model |}]
        else if Nat.eqb (length words) 1 then
          let make := hd [] words in
          [{| year := year; make := make; model := [];
              fullText := year ++ [32%N] ++ make |}]
        else []
    | None =>
        let cleanedLine := cleanText trimmedLine in
        if Nat.ltb 0 (length cleanedLine) then
          [{| year := []; make := []; model := []; fullText := cleanedLine |}]
        else []
    end.

Definition parse_line (line : jstr) : list Vehicle := parse_line_with skip_line line.

(** The lines handed to the loop:
    [fixedText.split(/[\n\r]+/).filter((line) => line.trim().length > 0)]. *)
Definition lines_of (text : jstr) : list jstr :=
  filter (fun line => Nat.ltb 0 (length (trim line))) (split_runs is_nl (fixOCRErrors text)).

(** The loop, threading the [vehicles] array. *)
Fixpoint parse_loop (skip : jstr -> bool) (vehicles : list Vehicle)
    (lines : list jstr) : list Vehicle :=
  match lines with
  | [] => vehicles
  | line :: lines' => parse_loop skip (vehicles ++ parse_line_with skip line) lines'
  end.

Definition parseVehicles (text : jstr) : list Vehicle :=
  parse_loop skip_line [] (lines_of text).

(** The loop with the [includes('Vehicle')] test taken out of the skip
    condition, to compare with [parseVehicles]. *)
Definition skip_line_noVehicle (trimmedLine : jstr) : bool :=
  Nat.ltb (length trimmedLine) 5 || includes trimmedLine (js "YARD"%string)
  || includes trimmedLine (js "ROW"%string) || includes trimmedLine (js "LOCAT"%string).

Definition parseVehicles_noVehicle (text : jstr) : list Vehicle :=
  parse_loop skip_line_noVehicle [] (lines_of text).

(** ** formatVehicleList *)

Definition formatVehicleList (vehicles : list Vehicle) : jstr :=
  join [10%N] (map fullText vehicles).

(** [s.split(c)] for a one-code-unit string [c]: every occurrence of [c]
    ends a piece. *)
Fixpoint split_at_aux (sep : char) (cur : jstr) (s : jstr) : list jstr :=
  match s with
  | [] => [rev cur]
  | c :: t =>
      if (c =? sep)%N then rev cur :: split_at_aux sep [] t
      else split_at_aux sep (c :: cur) t
  end.

Definition split_at (sep : char) (s : jstr) : list jstr := split_at_aux sep [] s.

(** ** EditableVehicleList (src/unnamed/part_000) *)

(** [handleDelete]: [vehicles.filter((_, i) => i !== index)]; [i] is the
    position the filter callback receives. *)
Fixpoint filter_index (i index : nat) (vehicles : list Vehicle) : list Vehicle :=
  match vehicles with
  | [] => []
  | v :: t =>
      if negb (Nat.eqb i index) then v :: filter_index (S i) index t
      else filter_index (S i) index t
  end.

Definition handleDelete (vehicles : list Vehicle) (index : nat) : list Vehicle :=
  filter_index 0 index vehicles.

(** [handleEdit]: [updatedVehicles[index] = {...updatedVehicles[index],
    fullText: newText}] on a copy.  Only positions of the list are
    modelled: past the end the source would grow the array with holes and a
    record lacking year, make and model, which is not a [Vehicle[]];
    the model answers [None] there. *)
Definition handleEdit (vehicles : list Vehicle) (index : nat) (newText : jstr)
    : option (list Vehicle) :=
  match nth_error vehicles index with
  | Some v =>
      Some (firstn index vehicles
            ++ {| year := year v; make := make v; model := model v;
                  fullText := newText |} :: skipn (S index) vehicles)
  | None => None
  end.

(** ** EbayResultsModal: the exclusion list *)

(** [String.prototype.toLowerCase], over the Basic Latin and Latin-1
    Supplement blocks; other code units are kept as they are in this
    model. *)
Definition lower_char (c : char) : jstr :=
  if is_AZ c then [(c + 32)%N]
  else if (192 <=? c)%N && (c <=? 222)%N && negb (c =? 215)%N then [(c + 32)%N]
  else [c].

Definition toLowerCase (s : jstr) : jstr := flat_map lower_char s.

(** [word.toLowerCase().replace(/[^\w\s]/g, '')] *)
Definition cleanWord (word : jstr) : jstr :=
  filter (fun c => is_word c || is_ws c) (toLowerCase word).

(** String [===]. *)
Definition jstr_eqb (a b : jstr) : bool :=
  if list_eq_dec N.eq_dec a b then true else false.

(** [arr.includes(w)] on an array of strings. *)
Definition array_includes (l : list jstr) (w : jstr) : bool :=
  existsb (jstr_eqb w) l.

Definition addToExcludeList (excludeList : list jstr) (word : jstr) : list jstr :=
  if negb (array_includes excludeList word) then excludeList ++ [word]
  else excludeList.

Definition removeFromExcludeList (excludeList : list jstr) (word : jstr) : list jstr :=
  filter (fun w => negb (jstr_eqb w word)) excludeList.

(** [toggleWordExclusion], as the new value of the [excludeList] state. *)
Definition toggleWordExclusion (excludeList : list jstr) (word : jstr) : list jstr :=
  let cw := cleanWord word in
  if Nat.leb (length cw) 2 then excludeList
  else if array_includes excludeList cw then removeFromExcludeList excludeList cw
  else addToExcludeList excludeList cw.

Record TitleToken := { tk_word : jstr; tk_isExcluded : bool }.

Definition tokenizeTitle (excludeList : list jstr) (title : jstr) : list TitleToken :=
  map (fun word => {| tk_word := word;
                      tk_isExcluded := array_includes excludeList (cleanWord word) |})
    (split_runs is_ws title).

(** The two handlers that set [excludeList]: pressing a title word
    ([toggleWordExclusion(token.word, e)]) and pressing a tag of the list
    ([removeFromExcludeList(word)]). *)
Inductive ExcludeEvent :=
| ToggleWord (word : jstr)
| RemoveTag (word : jstr).

Definition exclude_step (excludeList : list jstr) (ev : ExcludeEvent) : list jstr :=
  match ev with
  | ToggleWord w => toggleWordExclusion excludeList w
  | RemoveTag w => removeFromExcludeList excludeList w
  end.

(** The state after a sequence of presses, from [useState<string[]>([])]. *)
Definition exclude_run (events : list ExcludeEvent) : list jstr :=
  fold_left exclude_step events [].

(** ** ebayApiService: token cache and search *)

(** Times are [Date.now()] values in milliseconds. *)
Record TokenCache := { cachedToken : option jstr; tokenExpiry : Z }.

Definition initialCache : TokenCache := {| cachedToken := None; tokenExpiry := 0 |}.

(** A thrown value as the [catch] blocks see it: an Axios error, with the
    fields of [error.response.data] the code reads
    ([error_description], [errors[0].message]) and [error.message], or
    any other [Error] with its message. *)
Inductive JsError :=
| AxiosError (error_description : option jstr) (first_error_message : option jstr)
    (message : jstr)
| PlainError (message : jstr).

(** [axios.isAxiosError(error)] *)
Definition isAxiosError (error : JsError) : bool :=
  match error with AxiosError _ _ _ => true | PlainError _ => false end.

Definition error_description_of (error : JsError) : option jstr :=
  match error with AxiosError d _ _ => d | PlainError _ => None end.

Definition first_error_message_of (error : JsError) : option jstr :=
  match error with AxiosError _ fe _ => fe | PlainError _ => None end.

Definition error_message (error : JsError) : jstr :=
  match error with AxiosError _ _ m => m | PlainError m => m end.

(** What the OAuth [axios.post] gives: a response or a thrown error. *)
Inductive OAuthResponse :=
| OAuthOk (access_token : jstr) (expires_in : Z)
| OAuthFail (error : JsError).

(** A resolved value or a thrown error. *)
Inductive Result (A : Type) := Ok (a : A) | Err (error : JsError).
Arguments Ok {A} a.
Arguments Err {A} error.

(** JavaScript truthiness of an optional string. *)
Definition truthy (s : option jstr) : bool :=
  match s with Some (_ :: _) => true | _ => false end.

(** [a || b] for an optional string [a] and a string [b]. *)
Definition or_message (a : option jstr) (b : jstr) : jstr :=
  if truthy a then match a with Some x => x | None => b end else b.

(** The [catch] of [getAccessToken]: the [Error] it throws. *)
Definition oauth_catch (error : JsError) : JsError :=
  if isAxiosError error then
    PlainError (js "eBay OAuth failed: "%string
                ++ or_message (error_description_of error) (error_message error))
  else PlainError (js "Failed to get eBay access token"%string).

(** [getAccessToken]: [now] is [Date.now()] at the cache test, [now_after]
    the one read after the request. *)
Definition getAccessToken (st : TokenCache) (now now_after : Z)
    (resp : OAuthResponse) : Result jstr * TokenCache :=
  (* the [try] block: the request and the cache update, or the [catch] *)
  let request :=
    match resp with
    | OAuthOk t e =>
        (Ok t, {| cachedToken := Some t;
                  tokenExpiry := (now_after + (e - 300) * 1000)%Z |})
    | OAuthFail error => (Err (oauth_catch error), st)
    end in
  match cachedToken st with
  | Some tok =>
      if truthy (Some tok) && (now <? tokenExpiry st)%Z then (Ok tok, st)
      else request
  | None => request
  end.

(** The query built before the Browse request. *)
Definition buildSearchQuery (query : jstr) (excludeKeywords : list jstr) : jstr :=
  if Nat.ltb 0 (length excludeKeywords) then
    let exclusions := join [32%N] (map (fun kw => 45%N :: kw) excludeKeywords) in
    query ++ [32%N] ++ exclusions
  else query.

(** The Browse request: the [Authorization] header and the [params];
    [limit.toString()] is kept as the number. *)
Record SearchRequest := {
  authorization : jstr; q : jstr; limit_param : N; sort : jstr; filter_param : jstr }.

Inductive SearchResponse (Item : Type) :=
| SearchOk (itemSummaries : option (list Item))
| SearchFail (error : JsError).
Arguments SearchOk {Item} itemSummaries.
Arguments SearchFail {Item} error.

(** The [catch] of [searchEbay], which receives what [getAccessToken] and
    the Browse request throw: the [Error] it throws. *)
Definition search_catch (error : JsError) : JsError :=
  if isAxiosError error then
    PlainError (js "eBay search failed: "%string
                ++ or_message (first_error_message_of error) (error_message error))
  else PlainError (js "Failed to search eBay"%string).

(** [searchEbay]; [browse] answers the [axios.get] for a request. *)
Definition searchEbay {Item : Type} (st : TokenCache) (now now_after : Z)
    (oauth : OAuthResponse) (browse : SearchRequest -> SearchResponse Item)
    (query : jstr) (excludeKeywords : list jstr) (limit : N)
    : Result (list Item) * TokenCache :=
  let (tr, st') := getAccessToken st now now_after oauth in
  match tr with
  | Err error => (Err (search_catch error), st')
  | Ok token =>
      let req := {| authorization := js "Bearer "%string ++ token;
                    q := buildSearchQuery query excludeKeywords;
                    limit_param := limit;
                    sort := js "price"%string;
                    filter_param := js "buyingOptions:{FIXED_PRICE|AUCTION}"%string |} in
      match browse req with
      | SearchOk items =>
          (Ok (match items with Some l => l | None => [] end), st')
      | SearchFail error => (Err (search_catch error), st')
      end
  end.

(** ** Properties used in the statements *)

(** A year string: four decimal digits whose value lies in 1900..2099. *)
Definition year_ok (y : jstr) : Prop :=
  length y = 4 /\ forallb is_digit y = true /\ (1900 <= parseInt y <= 2099)%N.

(** Was the code unit before position [i] a [\w] code unit? *)
Definition prev_word_at (s : jstr) (i : nat) : bool :=
  match i with
  | 0 => false
  | S j => match nth_error s j with Some c => is_word c | None => false end
  end.

(** A token [19xx] or [20xx] at position [i], with a word boundary on
    both sides. *)
Definition four_digit_token_at (s : jstr) (i : nat) : Prop :=
  (i = 0 \/ exists p, nth_error s (i - 1) = Some p /\ is_word p = false) /\
  exists a b c d,
    nth_error s i = Some a /\ nth_error s (i + 1) = Some b /\
    nth_error s (i + 2) = Some c /\ nth_error s (i + 3) = Some d /\
    ((a = 49 /\ b = 57) \/ (a = 50 /\ b = 48))%N /\
    is_digit c = true /\ is_digit d = true /\
    (nth_error s (i + 4) = None \/
     exists e, nth_error s (i + 4) = Some e /\ is_word e = false).

(** A pair of digits at position [p] followed by a capital letter, either
    directly or after one white-space code unit. *)
Definition year_like_pair_at (s : jstr) (p : nat) : Prop :=
  exists a b, nth_error s p = Some a /\ nth_error s (S p) = Some b /\
    is_digit a = true /\ is_digit b = true /\
    lookahead_letter (skipn (S (S p)) s) = true.

(** The test [find_four] makes at position [j] of [s]. *)
Definition four_test (s : jstr) (j : nat) : bool :=
  negb (prev_word_at s j) && four_here (skipn j s).

Definition year_like_pair_b (s : jstr) (p : nat) : bool :=
  match nth_error s p, nth_error s (S p) with
  | Some a, Some b =>
      is_digit a && is_digit b && lookahead_letter (skipn (S (S p)) s)
  | _, _ => false
  end.

(** [m] is a prefix of [u] with at least one more code unit after it. *)
Definition strict_prefix (m u : jstr) : Prop :=
  exists rest, u = m ++ rest /\ rest <> [].

(** An entry of the exclusion list as [toggleWordExclusion] stores it:
    more than two code units, each a [\w] or white-space code unit, no
    capital ASCII letter. *)
Definition excl_entry_ok (w : jstr) : Prop :=
  2 < length w /\ forall c, In c w -> (is_word c || is_ws c) = true /\ is_AZ c = false.

(** ** Proofs *)

Ltac bool_facts :=
  repeat match goal with
  | H : (_ && _) = true |- _ => apply andb_prop in H; destruct H
  | H : (_ || _) = false |- _ => apply orb_false_elim in H; destruct H
  | H : (_ && _) = false |- _ => apply andb_false_iff in H; destruct H
  | H : negb _ = true |- _ => apply negb_true_iff in H
  | H : negb _ = false |- _ => apply negb_false_iff in H
  | H : (_ <=? _)%N = true |- _ => apply N.leb_le in H
  | H : (_ <=? _)%N = false |- _ => apply N.leb_gt in H
  | H : (_ =? _)%N = true |- _ => apply N.eqb_eq in H
  | H : (_ =? _)%N = false |- _ => apply N.eqb_neq in H
  end.

Section Loop.

Lemma parse_loop_flat_map (skip : jstr -> bool) :
  forall acc lines,
    parse_loop skip acc lines = acc ++ flat_map (parse_line_with skip) lines.
Proof.
  intros acc lines; revert acc.
  induction lines as [|l ls IH]; intros acc; simpl.
  - now rewrite app_nil_r.
  - rewrite IH. now rewrite app_assoc.
Qed.

Lemma parseVehicles_flat_map (text : jstr) :
  parseVehicles text = flat_map parse_line (lines_of text).
Proof. unfold parseVehicles. now rewrite parse_loop_flat_map. Qed.

Lemma parseVehicles_in (text : jstr) (v : Vehicle) :
  In v (parseVehicles text) ->
  exists line, In line (lines_of text) /\ In v (parse_line line).
Proof.
  rewrite parseVehicles_flat_map. intros H. now apply in_flat_map in H.
Qed.

Lemma parseVehicles_split (text : jstr) pre l post :
  lines_of text = pre ++ l :: post ->
  parseVehicles text =
    flat_map parse_line pre ++ parse_line l ++ flat_map parse_line post.
Proof.
  intros H. rewrite parseVehicles_flat_map, H, flat_map_app. reflexivity.
Qed.

End Loop.

(** Every record [parse_line_with] pushes is one of the two shapes of the
    source. *)
Lemma parse_line_cases (skip : jstr -> bool) (line : jstr) (v : Vehicle) :
  In v (parse_line_with skip line) ->
  (exists yd, extractYear (trim line) = Some yd /\ year v = yd_year yd /\
     exists mk rest, fullText v = yd_year yd ++ [32%N] ++ mk ++ rest) \/
  (extractYear (trim line) = None /\ year v = [] /\ fullText v <> []).
Proof.
  unfold parse_line_with.
  destruct (skip (trim line)); [simpl; tauto|].
  destruct (extractYear (trim line)) as [yd|] eqn:E.
  - destruct (Nat.leb 2 _).
    + intros [<-|[]]. left. exists yd. simpl. repeat split; auto.
      eexists; eexists; reflexivity.
    + destruct (Nat.eqb _ 1); [|simpl; tauto].
      intros [<-|[]]. left. exists yd. simpl. repeat split; auto.
      exists (hd [] (words_of (cleanText (splitMakeModel (yd_restOfText yd))))), [].
      now rewrite app_nil_r.
  - destruct (Nat.ltb 0 _) eqn:L; [|simpl; tauto].
    intros [<-|[]]. right. simpl. repeat split; auto.
    intros He. rewrite He in L. discriminate.
Qed.

Section Scans.

Lemma skipn_cons_next (s t : jstr) (k : nat) (c : char) :
  skipn k s = c :: t -> skipn (S k) s = t /\ nth_error s k = Some c.
Proof.
  revert s. induction k as [|k IH]; intros [|x s] H; simpl in *.
  - discriminate.
  - inversion H; subst. auto.
  - discriminate.
  - now apply IH.
Qed.

Lemma skipn_nil_after (s : jstr) (k i : nat) :
  skipn k s = [] -> k <= i -> skipn i s = [].
Proof.
  intros H Hle. replace i with ((i - k) + k) by lia.
  now rewrite <- skipn_skipn, H, skipn_nil.
Qed.

Lemma nth_error_skipn_hd (s : jstr) (k : nat) :
  nth_error s k = hd_error (skipn k s).
Proof.
  revert s. induction k as [|k IH]; intros [|x s]; simpl; auto.
Qed.

Lemma find_four_sound (s : jstr) :
  forall t k j, skipn k s = t ->
  find_four (prev_word_at s k) k t = Some j -> k <= j /\ four_test s j = true.
Proof.
  intros t. induction t as [|c t IH]; intros k j Hs Hf; cbn [find_four find_two] in Hf; [discriminate|].
  destruct (negb (prev_word_at s k) && four_here (c :: t)) eqn:T.
  - injection Hf as <-. split; [lia|]. unfold four_test. now rewrite Hs.
  - destruct (skipn_cons_next s t k c Hs) as [Hs' Hn].
    assert (Hp : is_word c = prev_word_at s (S k)) by (simpl; now rewrite Hn).
    rewrite Hp in Hf. destruct (IH (S k) j Hs' Hf). split; [lia|assumption].
Qed.

Lemma find_four_complete (s : jstr) :
  forall t k i, skipn k s = t -> k <= i -> four_test s i = true ->
  (forall j, k <= j < i -> four_test s j = false) ->
  find_four (prev_word_at s k) k t = Some i.
Proof.
  intros t. induction t as [|c t IH]; intros k i Hs Hki Hi Hlt.
  - unfold four_test in Hi. rewrite (skipn_nil_after s k i Hs Hki) in Hi.
    simpl in Hi. now rewrite andb_false_r in Hi.
  - cbn [find_four]. destruct (negb (prev_word_at s k) && four_here (c :: t)) eqn:T.
    + destruct (PeanoNat.Nat.eq_dec k i) as [->|Hne]; [reflexivity|].
      specialize (Hlt k ltac:(lia)). unfold four_test in Hlt.
      rewrite Hs in Hlt. congruence.
    + destruct (skipn_cons_next s t k c Hs) as [Hs' Hn].
      assert (Hp : is_word c = prev_word_at s (S k)) by (simpl; now rewrite Hn).
      rewrite Hp. apply IH; auto.
      * destruct (PeanoNat.Nat.eq_dec k i) as [->|Hne]; [|lia].
        unfold four_test in Hi. rewrite Hs in Hi. congruence.
      * intros j Hj. apply Hlt. lia.
Qed.

Lemma find_two_sound (s : jstr) :
  forall t k j, skipn k s = t ->
  find_two k t = Some j -> k <= j /\ two_here (skipn j s) = true.
Proof.
  intros t. induction t as [|c t IH]; intros k j Hs Hf; cbn [find_four find_two] in Hf; [discriminate|].
  destruct (two_here (c :: t)) eqn:T.
  - injection Hf as <-. split; [lia|]. now rewrite Hs.
  - destruct (skipn_cons_next s t k c Hs) as [Hs' _].
    destruct (IH (S k) j Hs' Hf). split; [lia|assumption].
Qed.

End Scans.

Section Years.

Lemma is_digit_bounds (c : char) : is_digit c = true -> (48 <= c <= 57)%N.
Proof. unfold is_digit. intros H. bool_facts. lia. Qed.

Lemma year_ok_four (a b c d : char) (rest : jstr) :
  four_here (a :: b :: c :: d :: rest) = true -> year_ok [a; b; c; d].
Proof.
  unfold four_here. intros H.
  apply andb_prop in H as [H _]. apply andb_prop in H as [H Hd].
  apply andb_prop in H as [H Hc].
  pose proof (is_digit_bounds c Hc). pose proof (is_digit_bounds d Hd).
  unfold year_ok, parseInt, digit_val. cbn [fold_left forallb length].
  apply orb_prop in H. destruct H as [H|H]; bool_facts; subst a b;
    rewrite Hc, Hd; repeat split; lia.
Qed.

Lemma year_ok_two (a b : char) :
  is_digit a = true -> is_digit b = true ->
  year_ok (if (0 <=? parseInt [a; b])%N && (parseInt [a; b] <=? 30)%N
           then [50%N; 48%N] ++ [a; b] else [49%N; 57%N] ++ [a; b]).
Proof.
  intros Ha Hb.
  pose proof (is_digit_bounds a Ha). pose proof (is_digit_bounds b Hb).
  unfold year_ok, parseInt, digit_val. cbn [fold_left].
  destruct ((0 <=? _)%N && _)%N eqn:E; cbn [app forallb length fold_left];
    rewrite Ha, Hb.
  - bool_facts. repeat split; lia.
  - repeat split; lia.
Qed.

Lemma extractYear_year_ok (s : jstr) (yd : YearData) :
  extractYear s = Some yd -> year_ok (yd_year yd).
Proof.
  unfold extractYear.
  destruct (find_four false 0 s) as [n|] eqn:F.
  - intros H. injection H as <-. simpl.
    destruct (find_four_sound s s 0 n eq_refl F) as [_ T].
    unfold four_test in T. apply andb_prop in T as [_ T].
    destruct (skipn n s) as [|a [|b [|c [|d rest]]]]; try discriminate.
    simpl. eapply year_ok_four. exact T.
  - destruct (find_two 0 s) as [n|] eqn:F2; [|discriminate].
    intros H. injection H as <-. cbn [yd_year].
    destruct (find_two_sound s s 0 n eq_refl F2) as [_ T].
    destruct (skipn n s) as [|x [|a [|b rest]]] eqn:Sk; try discriminate.
    destruct (skipn_cons_next s _ n x Sk) as [Sk' _].
    rewrite PeanoNat.Nat.add_1_r, Sk'. cbn [firstn].
    unfold two_here in T. bool_facts.
    apply (year_ok_two a b); assumption.
Qed.

End Years.

Section Trim.

Lemma drop_ws_app (x y : jstr) :
  drop_ws (x ++ y) = match drop_ws x with [] => drop_ws y | z => z ++ y end.
Proof.
  induction x as [|c x IH]; simpl; [reflexivity|].
  destruct (is_ws c); [exact IH|reflexivity].
Qed.

Lemma digit_not_ws (c : char) : is_digit c = true -> is_ws c = false.
Proof.
  intros H. apply is_digit_bounds in H.
  unfold is_ws. repeat rewrite orb_false_iff. repeat split;
    first [apply N.eqb_neq; lia | apply andb_false_iff; first [left; apply N.leb_gt; lia | right; apply N.leb_gt; lia]].
Qed.

Lemma trim_two_non_ws (a b : char) (r : jstr) :
  is_ws a = false -> is_ws b = false -> exists r', trim (a :: b :: r) = a :: b :: r'.
Proof.
  intros Ha Hb. unfold trim. cbn [drop_ws]. rewrite Ha.
  change (rev (a :: b :: r)) with ((rev r ++ [b]) ++ [a]).
  rewrite <- app_assoc. cbn [app]. rewrite drop_ws_app.
  destruct (drop_ws (rev r)) as [|z zs].
  - exists []. cbn [drop_ws]. rewrite Hb. reflexivity.
  - exists (rev (z :: zs)). rewrite rev_app_distr. reflexivity.
Qed.

End Trim.

Section Tokens.

Lemma four_here_iff (t : jstr) :
  (exists a b c d,
     nth_error t 0 = Some a /\ nth_error t 1 = Some b /\
     nth_error t 2 = Some c /\ nth_error t 3 = Some d /\
     ((a = 49 /\ b = 57) \/ (a = 50 /\ b = 48))%N /\
     is_digit c = true /\ is_digit d = true /\
     (nth_error t 4 = None \/
      exists e, nth_error t 4 = Some e /\ is_word e = false))
  <-> four_here t = true.
Proof.
  split.
  - intros (a & b & c & d & Ha & Hb & Hc & Hd & Hab & Hc' & Hd' & He).
    destruct t as [|a' [|b' [|c' [|d' rest]]]]; try discriminate.
    cbn in Ha, Hb, Hc, Hd.
    injection Ha as ->. injection Hb as ->. injection Hc as ->. injection Hd as ->.
    unfold four_here. rewrite Hc', Hd'.
    assert (Hs : starts_word rest = false).
    { destruct rest as [|e r]; [reflexivity|].
      destruct He as [He|(e' & He & Hw)]; cbn in He; [discriminate|].
      injection He as ->. exact Hw. }
    rewrite Hs.
    destruct Hab as [[-> ->]|[-> ->]]; reflexivity.
  - intros H. destruct t as [|a [|b [|c [|d rest]]]]; try discriminate.
    unfold four_here in H. bool_facts.
    exists a, b, c, d. cbn. repeat split; auto.
    + apply orb_prop in H. destruct H as [H|H]; bool_facts; auto.
    + destruct rest as [|e r]; [now left|]. right. exists e. split; auto.
Qed.

Lemma prev_word_at_iff (s : jstr) (i : nat) :
  skipn i s <> [] ->
  ((i = 0 \/ exists p, nth_error s (i - 1) = Some p /\ is_word p = false)
   <-> prev_word_at s i = false).
Proof.
  intros Hne. destruct i as [|j]; cbn.
  - split; auto.
  - rewrite PeanoNat.Nat.sub_0_r.
    destruct (nth_error s j) as [c|] eqn:E.
    + split.
      * intros [H|(p & Hp & Hw)]; [discriminate|]. congruence.
      * intros Hw. right. exists c. auto.
    + exfalso. apply nth_error_None in E.
      apply Hne. apply skipn_all2. cbn. lia.
Qed.

Lemma four_token_test (s : jstr) (i : nat) :
  four_digit_token_at s i <-> four_test s i = true.
Proof.
  unfold four_digit_token_at, four_test.
  replace (nth_error s i) with (nth_error (skipn i s) 0)
    by now rewrite nth_error_skipn, PeanoNat.Nat.add_0_r.
  rewrite <- !nth_error_skipn.
  split.
  - intros [Hp Ht].
    assert (Hne : skipn i s <> []).
    { destruct Ht as (a & b & c & d & Ha & _); intros E; rewrite E in Ha.
      discriminate. }
    apply prev_word_at_iff in Hp; [|exact Hne].
    rewrite Hp. cbn. apply four_here_iff. exact Ht.
  - intros H. apply andb_prop in H as [Hp Ht]. apply negb_true_iff in Hp.
    assert (Hne : skipn i s <> []).
    { intros E. rewrite E in Ht. discriminate. }
    split; [apply prev_word_at_iff; assumption|].
    apply four_here_iff. exact Ht.
Qed.

(** Deciding [year_like_pair_at] at one position. *)
Lemma year_like_pair_b_true (s : jstr) (p : nat) :
  year_like_pair_at s p -> year_like_pair_b s p = true.
Proof.
  intros (a & b & Ha & Hb & Hda & Hdb & Hl).
  unfold year_like_pair_b. rewrite Ha, Hb, Hda, Hdb, Hl. reflexivity.
Qed.

Lemma year_like_pair_lt (s : jstr) (p : nat) :
  year_like_pair_at s p -> p < length s.
Proof.
  intros (a & _ & Ha & _). apply nth_error_Some. congruence.
Qed.

Lemma only_pair_at_0 (s : jstr) :
  forallb (fun p => negb (year_like_pair_b s p) || Nat.eqb p 0)
    (seq 0 (length s)) = true ->
  forall p, year_like_pair_at s p -> p = 0.
Proof.
  intros H p Hp. rewrite forallb_forall in H.
  specialize (H p ltac:(apply in_seq; pose proof (year_like_pair_lt s p Hp); lia)).
  rewrite (year_like_pair_b_true s p Hp) in H. cbn in H.
  now apply PeanoNat.Nat.eqb_eq.
Qed.

Lemma no_four_token (s : jstr) :
  forallb (fun i => negb (four_test s i)) (seq 0 (length s)) = true ->
  forall i, ~ four_digit_token_at s i.
Proof.
  intros H i Hi. apply four_token_test in Hi. rewrite forallb_forall in H.
  assert (Hlt : i < length s).
  { unfold four_test in Hi. apply andb_prop in Hi as [_ Hi].
    destruct (PeanoNat.Nat.lt_ge_cases i (length s)) as [Hl|Hl]; [exact Hl|].
    rewrite skipn_all2 in Hi by exact Hl. discriminate. }
  specialize (H i ltac:(apply in_seq; lia)). rewrite Hi in H. discriminate.
Qed.

End Tokens.

Section Makes.

Lemma startsWith_iff (u m : jstr) :
  startsWith u m = true <-> exists rest, u = m ++ rest.
Proof.
  revert u. induction m as [|x m IH]; intros u; cbn.
  - split; [intros _; now exists u|reflexivity].
  - destruct u as [|y u].
    + split; [discriminate|]. intros [rest H]. discriminate.
    + rewrite andb_true_iff, N.eqb_eq, IH. split.
      * intros [-> [rest ->]]. now exists rest.
      * intros [rest H]. injection H as -> ->. split; [reflexivity|]. now exists rest.
Qed.

Lemma strict_prefix_test (m u : jstr) :
  startsWith u m && Nat.ltb (length m) (length u) = true <-> strict_prefix m u.
Proof.
  rewrite andb_true_iff, startsWith_iff, PeanoNat.Nat.ltb_lt. split.
  - intros [[rest ->] Hl]. exists rest. split; [reflexivity|].
    intros ->. rewrite app_nil_r in Hl. lia.
  - intros [rest [-> Hr]]. split; [now exists rest|].
    rewrite length_app. destruct rest; [congruence|]. cbn. lia.
Qed.

Lemma splitMakeModel_loop_first (u text : jstr) pre m post :
  strict_prefix m u -> (forall m', In m' pre -> ~ strict_prefix m' u) ->
  splitMakeModel_loop u text (pre ++ m :: post) = m ++ [32%N] ++ skipn (length m) text.
Proof.
  intros Hm Hpre. induction pre as [|m' pre IH]; cbn [splitMakeModel_loop app].
  - apply strict_prefix_test in Hm. now rewrite Hm.
  - destruct (startsWith u m' && _) eqn:T.
    + exfalso. apply (Hpre m'); [now left|]. now apply strict_prefix_test.
    + apply IH. intros m'' H. apply Hpre. now right.
Qed.

Lemma splitMakeModel_loop_none (u text : jstr) makes :
  (forall m, In m makes -> ~ strict_prefix m u) ->
  splitMakeModel_loop u text makes = text.
Proof.
  induction makes as [|m makes IH]; intros H; cbn [splitMakeModel_loop];
    [reflexivity|].
  destruct (startsWith u m && _) eqn:T.
  - exfalso. apply (H m); [now left|]. now apply strict_prefix_test.
  - apply IH. intros m' Hm'. apply H. now right.
Qed.

End Makes.

(** Where the code units of the normalised text come from: no step of
    [fixOCRErrors] produces the code unit [e] (101), so no line of it
    contains ["Vehicle"]. *)
Section NoLowerE.

Lemma upper_char_not_e (c0 c : char) : In c (upper_char c0) -> c <> 101%N.
Proof.
  unfold upper_char, is_az.
  repeat match goal with
  | |- context [if ?b then _ else _] => destruct b eqn:?
  end; cbn [In]; intros H;
  repeat match goal with
  | H : _ \/ _ |- _ => destruct H as [H|H]
  | H : False |- _ => destruct H
  end; subst; bool_facts; lia.
Qed.

Lemma toUpperCase_not_e (s : jstr) (c : char) : In c (toUpperCase s) -> c <> 101%N.
Proof.
  unfold toUpperCase. intros H. apply in_flat_map in H as (c0 & _ & H).
  exact (upper_char_not_e c0 c H).
Qed.

Lemma replace_JOI_in (n : nat) :
  forall s pw c, length s <= n -> In c (replace_JOI pw s) ->
  In c s \/ c = 50%N \/ c = 48%N \/ c = 49%N.
Proof.
  induction n as [|n IH]; intros s pw c Hl H.
  - destruct s; [destruct H|cbn in Hl; lia].
  - destruct s as [|c0 t]; [destruct H|].
    cbn [length] in Hl.
    destruct t as [|c2 [|c3 rest]]; cbn [replace_JOI] in H.
    + destruct H as [<-|H]; [left; now left|].
      destruct (IH [] (is_word c0) c ltac:(cbn in Hl |- *; lia) H) as [[]|H']. tauto.
    + destruct H as [<-|H]; [left; now left|].
      destruct (IH [c2] (is_word c0) c ltac:(cbn in Hl |- *; lia) H) as [H'|H']; [|tauto].
      left. now right.
    + destruct (_ && _).
      * destruct H as [<-|[<-|[<-|H]]]; try tauto.
        destruct (IH rest true c ltac:(cbn in Hl; lia) H) as [H'|H']; [|tauto].
        left. right. right. now right.
      * destruct H as [<-|H]; [left; now left|].
        destruct (IH (c2 :: c3 :: rest) (is_word c0) c ltac:(cbn in Hl |- *; lia) H)
          as [H'|H']; [|tauto].
        left. now right.
Qed.

Lemma replace_class_in (cls : char -> bool) (r : char) (s : jstr) (c : char) :
  In c (replace_class cls r s) -> In c s \/ c = r.
Proof.
  unfold replace_class. intros H. apply in_map_iff in H as (x & <- & Hx).
  destruct (cls x); auto.
Qed.

Lemma replace_O_in (s : jstr) : forall pw c,
  In c (replace_O pw s) -> In c s \/ c = 48%N.
Proof.
  induction s as [|c0 t IH]; intros pw c H; [destruct H|].
  cbn [replace_O] in H. destruct (_ && _).
  - destruct H as [<-|H]; [now right|].
    destruct (IH _ _ H); [left; now right|now right].
  - destruct H as [<-|H]; [left; now left|].
    destruct (IH _ _ H); [left; now right|now right].
Qed.

Lemma fixOCRErrors_not_e (text : jstr) (c : char) :
  In c (fixOCRErrors text) -> c <> 101%N.
Proof.
  unfold fixOCRErrors. intros H.
  destruct (replace_O_in _ _ _ H) as [H1| ->]; [|discriminate].
  destruct (replace_class_in _ _ _ _ H1) as [H2| ->]; [|discriminate].
  destruct (replace_class_in _ _ _ _ H2) as [H3| ->]; [|discriminate].
  destruct (replace_JOI_in _ _ _ _ (le_n _) H3) as [H4|[->|[->| ->]]];
    try discriminate.
  exact (toUpperCase_not_e _ _ H4).
Qed.

Lemma split_runs_aux_in (sep : char -> bool) (s : jstr) :
  forall cur b piece c, In piece (split_runs_aux sep cur b s) -> In c piece ->
  In c cur \/ In c s.
Proof.
  induction s as [|x t IH]; intros cur b piece c Hp Hc; cbn [split_runs_aux] in Hp.
  - destruct Hp as [<-|[]]. left. now apply in_rev.
  - destruct (sep x); [destruct b|].
    + destruct (IH _ _ _ _ Hp Hc) as [[]|H]. right. now right.
    + destruct Hp as [<-|Hp].
      * left. now apply in_rev.
      * destruct (IH _ _ _ _ Hp Hc) as [[]|H]. right. now right.
    + destruct (IH _ _ _ _ Hp Hc) as [[<-|H]|H].
      * right. now left.
      * now left.
      * right. now right.
Qed.

Lemma drop_ws_in (s : jstr) (c : char) : In c (drop_ws s) -> In c s.
Proof.
  induction s as [|x t IH]; cbn; [tauto|].
  destruct (is_ws x); [intros H; right; now apply IH|tauto].
Qed.

Lemma trim_in (s : jstr) (c : char) : In c (trim s) -> In c s.
Proof.
  unfold trim. intros H. apply in_rev, drop_ws_in, in_rev, drop_ws_in in H.
  exact H.
Qed.

Lemma includes_in (s p : jstr) (c : char) :
  includes s p = true -> In c p -> In c s.
Proof.
  induction s as [|x t IH]; cbn [includes]; intros H Hc.
  - apply startsWith_iff in H as [rest E].
    destruct p; [destruct Hc|discriminate].
  - apply orb_prop in H as [H|H].
    + apply startsWith_iff in H as [rest E]. rewrite E.
      apply in_or_app. now left.
    + right. now apply IH.
Qed.

Lemma lines_of_not_e (text l : jstr) (c : char) :
  In l (lines_of text) -> In c (trim l) -> c <> 101%N.
Proof.
  unfold lines_of. intros Hl Hc. apply filter_In in Hl as [Hl _].
  apply trim_in in Hc.
  destruct (split_runs_aux_in _ _ _ _ _ _ Hl Hc) as [[]|H].
  exact (fixOCRErrors_not_e _ _ H).
Qed.

Lemma lines_of_no_Vehicle (text l : jstr) :
  In l (lines_of text) -> includes (trim l) (js "Vehicle"%string) = false.
Proof.
  intros Hl. destruct (includes _ _) eqn:E; [exfalso|reflexivity].
  assert (He : In 101%N (js "Vehicle"%string)) by (vm_compute; auto).
  exact (lines_of_not_e text l 101%N Hl (includes_in _ _ _ E He) eq_refl).
Qed.

End NoLowerE.

(** ** Claims *)

Module Claims.

(** The records of the end-to-end example of the spec. *)
Definition impala_2015 : Vehicle :=
  {| year := js "2015"%string; make := js "CHEVROLET"%string; model := js "IMPALA"%string;
     fullText := js "2015 CHEVROLET IMPALA"%string |}.

Definition ford_1999 : Vehicle :=
  {| year := js "1999"%string; make := js "FORD"%string; model := js "F150"%string;
     fullText := js "1999 FORD F150"%string |}.

Definition ford_no_year : Vehicle :=
  {| year := []; make := []; model := []; fullText := js "99 FORD F150"%string |}.

Definition example_input : jstr :=
  js "2015 CHEVROLETIMPALA"%string ++ [10%N] ++ js "YARD ROW 3"%string ++ [10%N]
  ++ js "99 FORD F150"%string.

(** C1 (code bug): on ["2015 CHEVROLETIMPALA\nYARD ROW 3\n99 FORD F150"],
    [parseVehicles] returns the 2015 CHEVROLET IMPALA record and then a
    fallback record with empty year, make and model and full text
    ["99 FORD F150"], not the 1999 FORD F150 record; the ["YARD ROW 3"]
    line gives no record.  The two-digit rule needs a code unit before the
    digits, so a year at the start of a trimmed line is never read: the
    example ["05 CHEVROLET"] of the source comment gives no year either. *)
Lemma C1_example_output :
  parseVehicles example_input = [impala_2015; ford_no_year] /\
  parseVehicles example_input <> [impala_2015; ford_1999] /\
  extractYear (js "99 FORD F150"%string) = None /\
  extractYear (js "05 CHEVROLET"%string) = None.
Proof.
  split; [vm_compute; reflexivity|].
  split; [vm_compute; intros H; discriminate H|].
  split; vm_compute; reflexivity.
Qed.

(** C2 (code bug): when the two-digit rule of [extractYear] fires at
    index [idx], [restOfText] is the trimmed text from [idx + 1] on, so it
    begins with the two matched digits; on [". 05CHEVROLET IMPALA"] it is
    ["05CHEVROLET IMPALA"]. *)
Lemma C2_two_digit_rest_keeps_digits :
  (forall s idx,
     find_four false 0 s = None -> find_two 0 s = Some idx ->
     exists a b r yd,
       extractYear s = Some yd /\
       skipn (S idx) s = a :: b :: r /\
       is_digit a = true /\ is_digit b = true /\
       exists r', yd_restOfText yd = a :: b :: r') /\
  extractYear (js ". 05CHEVROLET IMPALA"%string) =
    Some {| yd_year := js "2005"%string; yd_restOfText := js "05CHEVROLET IMPALA"%string |}.
Proof.
  split; [|vm_compute; reflexivity].
  intros s idx F F2.
  destruct (find_two_sound s s 0 idx eq_refl F2) as [_ T].
  destruct (skipn idx s) as [|x [|a [|b r]]] eqn:Sk; try discriminate.
  destruct (skipn_cons_next s _ idx x Sk) as [Sk' _].
  unfold two_here in T. bool_facts.
  unfold extractYear. rewrite F, F2.
  rewrite PeanoNat.Nat.add_1_r, Sk'. cbn [firstn length].
  replace (idx + 3 - 2) with (S idx) by lia. rewrite Sk'.
  eexists a, b, r, _. split; [reflexivity|]. repeat split; auto.
  cbn [yd_restOfText]. apply trim_two_non_ws; apply digit_not_ws; assumption.
Qed.

Lemma C2_witness :
  exists yd, extractYear (js ". 05CHEVROLET IMPALA"%string) = Some yd /\
    exists r', yd_restOfText yd = 48%N :: 53%N :: r'.
Proof.
  destruct (proj1 C2_two_digit_rest_keeps_digits (js ". 05CHEVROLET IMPALA"%string) 1)
    as (a & b & r & yd & E & Sk & _ & _ & R).
  - vm_compute. reflexivity.
  - vm_compute. reflexivity.
  - exists yd. split; [exact E|].
    vm_compute in Sk. injection Sk as <- <- _. exact R.
Defined.

(** C4: every record [parseVehicles] returns has a non-empty [fullText]. *)
Theorem C4_fullText_nonempty (text : jstr) (v : Vehicle) :
  In v (parseVehicles text) -> fullText v <> [].
Proof.
  intros H. apply parseVehicles_in in H as (line & _ & H).
  apply parse_line_cases in H as [(yd & _ & _ & mk & rest & ->)|(_ & _ & H)];
    [|exact H].
  intros E. apply app_eq_nil in E as [_ E]. discriminate E.
Qed.

Lemma C4_witness :
  In ford_no_year (parseVehicles example_input) /\ fullText ford_no_year <> [].
Proof.
  assert (H : In ford_no_year (parseVehicles example_input))
    by (vm_compute; right; left; reflexivity).
  split; [exact H|exact (C4_fullText_nonempty _ _ H)].
Defined.

(** C9: the [year] of every record [parseVehicles] returns is empty or a
    four-digit numeral between 1900 and 2099. *)
Theorem C9_year_empty_or_in_range (text : jstr) (v : Vehicle) :
  In v (parseVehicles text) -> year v = [] \/ year_ok (year v).
Proof.
  intros H. apply parseVehicles_in in H as (line & _ & H).
  apply parse_line_cases in H as [(yd & E & -> & _)|(_ & -> & _)]; [|now left].
  right. exact (extractYear_year_ok _ _ E).
Qed.

Lemma C9_witness :
  In impala_2015 (parseVehicles example_input) /\
  (year impala_2015 = [] \/ year_ok (year impala_2015)).
Proof.
  assert (H : In impala_2015 (parseVehicles example_input))
    by (vm_compute; left; reflexivity).
  split; [exact H|exact (C9_year_empty_or_in_range _ _ H)].
Defined.

(** C5: when a line has a [19xx]/[20xx] token bounded by word
    boundaries, [extractYear] returns the leftmost such token as the year
    and the trimmed text after it as the remainder, whatever two-digit
    pairs the line also contains; on ["2015 CHEVROLET IMPALA"] this is
    year ["2015"] and remainder ["CHEVROLET IMPALA"]. *)
Theorem C5_four_digit_year_first :
  (forall s i,
     four_digit_token_at s i ->
     (forall j, j < i -> ~ four_digit_token_at s j) ->
     extractYear s =
       Some {| yd_year := firstn 4 (skipn i s);
               yd_restOfText := trim (skipn (i + 4) s) |}) /\
  extractYear (js "2015 CHEVROLET IMPALA"%string) =
    Some {| yd_year := js "2015"%string;
            yd_restOfText := js "CHEVROLET IMPALA"%string |}.
Proof.
  split; [|vm_compute; reflexivity].
  intros s i Hi Hfirst.
  assert (F : find_four false 0 s = Some i).
  { change (find_four (prev_word_at s 0) 0 (skipn 0 s) = Some i).
    apply find_four_complete; [reflexivity|lia|now apply four_token_test|].
    intros j Hj. destruct (four_test s j) eqn:T; [|reflexivity].
    exfalso. apply (Hfirst j); [lia|]. now apply four_token_test. }
  unfold extractYear. now rewrite F.
Qed.

Lemma C5_witness :
  four_digit_token_at (js "2015 CHEVROLET IMPALA"%string) 0 /\
  extractYear (js "2015 CHEVROLET IMPALA"%string) =
    Some {| yd_year := js "2015"%string;
            yd_restOfText := js "CHEVROLET IMPALA"%string |}.
Proof.
  assert (H : four_digit_token_at (js "2015 CHEVROLET IMPALA"%string) 0).
  { apply four_token_test. vm_compute. reflexivity. }
  split; [exact H|].
  rewrite (proj1 C5_four_digit_year_first _ 0 H); [vm_compute; reflexivity|].
  intros j Hj. lia.
Defined.

(** C6 (counterexample): on the lower-case text ["chevroletimpala"],
    [CHEVROLET] is a strict prefix of the upper-cased text, but the result
    is ["CHEVROLET impala"], not the text with a space inserted after the
    make, ["chevrolet impala"]. *)
Lemma C6_counterexample :
  strict_prefix (js "CHEVROLET"%string) (toUpperCase (js "chevroletimpala"%string)) /\
  splitMakeModel (js "chevroletimpala"%string) = js "CHEVROLET impala"%string /\
  splitMakeModel (js "chevroletimpala"%string) <> js "chevrolet impala"%string.
Proof.
  split; [|split; [vm_compute; reflexivity|vm_compute; discriminate]].
  exists (js "IMPALA"%string). split; [vm_compute; reflexivity|discriminate].
Qed.

(** C6 (amended): if some make of [COMMON_MAKES] is a strict prefix of
    the upper-cased text, [splitMakeModel] returns the first such make as
    spelled in the list, a space, and the text after its first
    [length make] code units (for text that is already upper case: the
    text with a space inserted after the make); if no make is, it returns
    the text unchanged.  [splitMakeModel "CHEVROLETIMPALA"] is
    ["CHEVROLET IMPALA"]. *)
Theorem C6_splitMakeModel_first_make (text : jstr) :
  (forall pre m post,
     COMMON_MAKES = pre ++ m :: post ->
     strict_prefix m (toUpperCase text) ->
     (forall m', In m' pre -> ~ strict_prefix m' (toUpperCase text)) ->
     splitMakeModel text = m ++ [32%N] ++ skipn (length m) text /\
     (toUpperCase text = text ->
      exists rest, text = m ++ rest /\ splitMakeModel text = m ++ [32%N] ++ rest)) /\
  ((forall m, In m COMMON_MAKES -> ~ strict_prefix m (toUpperCase text)) ->
   splitMakeModel text = text) /\
  splitMakeModel (js "CHEVROLETIMPALA"%string) = js "CHEVROLET IMPALA"%string.
Proof.
  split; [|split; [|vm_compute; reflexivity]].
  - intros pre m post Hl Hm Hpre.
    assert (E : splitMakeModel text = m ++ [32%N] ++ skipn (length m) text).
    { unfold splitMakeModel. rewrite Hl. now apply splitMakeModel_loop_first. }
    split; [exact E|].
    intros Hu. destruct Hm as [rest [Hr _]]. rewrite Hu in Hr.
    exists rest. split; [exact Hr|].
    rewrite E, Hr, skipn_app, skipn_all, PeanoNat.Nat.sub_diag. reflexivity.
  - intros H. unfold splitMakeModel. now apply splitMakeModel_loop_none.
Qed.

Lemma C6_witness :
  strict_prefix (js "CHEVROLET"%string) (toUpperCase (js "CHEVROLETIMPALA"%string)) /\
  splitMakeModel (js "CHEVROLETIMPALA"%string) = js "CHEVROLET IMPALA"%string.
Proof.
  assert (Hp : strict_prefix (js "CHEVROLET"%string)
                 (toUpperCase (js "CHEVROLETIMPALA"%string))).
  { exists (js "IMPALA"%string). split; [vm_compute; reflexivity|discriminate]. }
  split; [exact Hp|].
  destruct (proj1 (C6_splitMakeModel_first_make (js "CHEVROLETIMPALA"%string))
              [] (js "CHEVROLET"%string) (tl COMMON_MAKES)) as [E _].
  - vm_compute. reflexivity.
  - exact Hp.
  - intros m' [].
  - rewrite E. vm_compute. reflexivity.
Defined.

(** C10: the two-digit rule never fires on a digit pair at the start of
    the trimmed line.  So for a line whose only digit pair followed by a
    capital letter is the leading one and which has no [19xx]/[20xx]
    token, [extractYear] returns no match, and the line, when it passes
    the noise filter, gives the fallback record with empty year, make and
    model holding the cleaned line, or nothing if the cleaned line is
    empty. *)
Theorem C10_leading_two_digits_fallback (line : jstr) :
  year_like_pair_at (trim line) 0 ->
  (forall p, year_like_pair_at (trim line) p -> p = 0) ->
  (forall i, ~ four_digit_token_at (trim line) i) ->
  extractYear (trim line) = None /\
  (skip_line (trim line) = false ->
   parse_line line =
     if Nat.ltb 0 (length (cleanText (trim line)))
     then [{| year := []; make := []; model := [];
              fullText := cleanText (trim line) |}]
     else []).
Proof.
  intros _ Honly Hno. set (s := trim line) in *.
  assert (E : extractYear s = None).
  { unfold extractYear.
    destruct (find_four false 0 s) as [j|] eqn:F.
    - exfalso. change (find_four (prev_word_at s 0) 0 (skipn 0 s) = Some j) in F.
      destruct (find_four_sound s s 0 j eq_refl F) as [_ T].
      apply (Hno j). now apply four_token_test.
    - destruct (find_two 0 s) as [j|] eqn:F2; [exfalso|reflexivity].
      destruct (find_two_sound s s 0 j eq_refl F2) as [_ T].
      destruct (skipn j s) as [|x [|a [|b rest]]] eqn:Sk; try discriminate.
      unfold two_here in T. bool_facts.
      destruct (skipn_cons_next s _ j x Sk) as [Sk1 _].
      destruct (skipn_cons_next s _ (S j) a Sk1) as [Sk2 Ha].
      destruct (skipn_cons_next s _ (S (S j)) b Sk2) as [Sk3 Hb].
      assert (P : year_like_pair_at s (S j)).
      { exists a, b. rewrite Sk3. auto. }
      specialize (Honly _ P). discriminate. }
  split; [exact E|].
  intros Hskip. unfold parse_line, parse_line_with. fold s.
  now rewrite Hskip, E.
Qed.

Lemma C10_witness :
  extractYear (js "99 FORD F150"%string) = None /\
  parse_line (js "99 FORD F150"%string) =
    [{| year := []; make := []; model := []; fullText := js "99 FORD F150"%string |}].
Proof.
  destruct (C10_leading_two_digits_fallback (js "99 FORD F150"%string)) as [E P].
  - exists 57%N, 57%N. vm_compute. auto.
  - apply only_pair_at_0. vm_compute. reflexivity.
  - apply no_four_token. vm_compute. reflexivity.
  - split.
    + rewrite <- E. vm_compute. reflexivity.
    + rewrite P; [vm_compute; reflexivity|vm_compute; reflexivity].
Defined.

(** C3: the ["Vehicle"] marker never matches a line of the upper-cased,
    substituted text, so [parseVehicles] gives the same output as the
    same loop without the [includes('Vehicle')] test, on every input. *)
Theorem C3_Vehicle_marker_dead (text : jstr) :
  parseVehicles text = parseVehicles_noVehicle text.
Proof.
  unfold parseVehicles, parseVehicles_noVehicle.
  rewrite !parse_loop_flat_map. cbn [app].
  pose proof (lines_of_no_Vehicle text) as Hno.
  induction (lines_of text) as [|l ls IH]; [reflexivity|].
  cbn [flat_map]. f_equal.
  - unfold parse_line_with, skip_line.
    rewrite (Hno l (or_introl eq_refl)), orb_false_r. reflexivity.
  - apply IH. intros l' H. apply Hno. now right.
Qed.

(** C7: a line whose trimmed text is shorter than 5 code units or
    contains ["YARD"], ["ROW"] or ["LOCAT"] adds no record: the output is
    that of the lines before it followed by that of the lines after it.
    The input ["Ford"] gives no record. *)
Theorem C7_noise_lines_dropped :
  (forall text pre l post,
     lines_of text = pre ++ l :: post ->
     (length (trim l) < 5 \/ includes (trim l) (js "YARD"%string) = true \/
      includes (trim l) (js "ROW"%string) = true \/
      includes (trim l) (js "LOCAT"%string) = true) ->
     parseVehicles text = flat_map parse_line pre ++ flat_map parse_line post) /\
  parseVehicles (js "Ford"%string) = [].
Proof.
  split; [|vm_compute; reflexivity].
  intros text pre l post Hl Hn.
  rewrite (parseVehicles_split text pre l post Hl).
  replace (parse_line l) with (@nil Vehicle); [reflexivity|].
  unfold parse_line, parse_line_with, skip_line.
  destruct Hn as [H|[H|[H|H]]];
    [apply PeanoNat.Nat.ltb_lt in H|..]; rewrite H; rewrite ?orb_true_r;
    reflexivity.
Qed.

Lemma C7_witness :
  parseVehicles (js "Ford"%string ++ [10%N] ++ js "2015 FORD F150"%string) =
    flat_map parse_line [js "2015 FORD F150"%string].
Proof.
  apply (proj1 C7_noise_lines_dropped _ [] (js "FORD"%string)
           [js "2015 FORD F150"%string]).
  - vm_compute. reflexivity.
  - left. vm_compute. lia.
Defined.

(** C8: a surviving line on which [extractYear] succeeds but whose
    cleaned remainder has no word adds no record, and the records of the
    other lines are those they give on their own. *)
Theorem C8_year_without_words_dropped (text : jstr) pre l post (yd : YearData) :
  lines_of text = pre ++ l :: post ->
  skip_line (trim l) = false ->
  extractYear (trim l) = Some yd ->
  words_of (cleanText (splitMakeModel (yd_restOfText yd))) = [] ->
  parse_line l = [] /\
  parseVehicles text = flat_map parse_line pre ++ flat_map parse_line post.
Proof.
  intros Hl Hs E W.
  assert (P : parse_line l = []).
  { unfold parse_line, parse_line_with. cbv zeta.
    rewrite Hs, E, W. reflexivity. }
  split; [exact P|].
  now rewrite (parseVehicles_split text pre l post Hl), P.
Qed.

Lemma C8_witness :
  parse_line (js "CAR 2015"%string) = [] /\
  parseVehicles (js "CAR 2015"%string ++ [10%N] ++ js "2015 FORD F150"%string) =
    flat_map parse_line [js "2015 FORD F150"%string].
Proof.
  apply (C8_year_without_words_dropped _ [] (js "CAR 2015"%string)
           [js "2015 FORD F150"%string]
           {| yd_year := js "2015"%string; yd_restOfText := [] |});
    vm_compute; reflexivity.
Defined.

End Claims.

(** ** Further properties of the code *)

Section ExcludeList.

Lemma jstr_eqb_true (a b : jstr) : jstr_eqb a b = true <-> a = b.
Proof.
  unfold jstr_eqb. destruct (list_eq_dec N.eq_dec a b); split; congruence.
Qed.

Lemma array_includes_In (l : list jstr) (w : jstr) :
  array_includes l w = true <-> In w l.
Proof.
  unfold array_includes. rewrite existsb_exists. split.
  - intros (x & Hx & E). apply jstr_eqb_true in E. now subst.
  - intros H. exists w. split; [exact H|now apply jstr_eqb_true].
Qed.

Lemma remove_In (l : list jstr) (w x : jstr) :
  In x (removeFromExcludeList l w) <-> In x l /\ x <> w.
Proof.
  unfold removeFromExcludeList. rewrite filter_In, negb_true_iff.
  split; intros [H1 H2]; split; auto.
  - intros ->. rewrite (proj2 (jstr_eqb_true w w) eq_refl) in H2. discriminate.
  - destruct (jstr_eqb x w) eqn:E; [apply jstr_eqb_true in E; contradiction|reflexivity].
Qed.

Lemma add_In (l : list jstr) (w x : jstr) :
  In x (addToExcludeList l w) <-> In x l \/ x = w.
Proof.
  unfold addToExcludeList. destruct (array_includes l w) eqn:E; cbn [negb].
  - apply array_includes_In in E. split; [now left|intros [H| ->]; auto].
  - rewrite in_app_iff. cbn [In]. intuition.
Qed.

Lemma filter_all_true {A : Type} (f : A -> bool) (l : list A) :
  (forall x, In x l -> f x = true) -> filter f l = l.
Proof.
  induction l as [|x t IH]; intros H; [reflexivity|].
  cbn [filter]. rewrite (H x (or_introl eq_refl)), IH; [reflexivity|].
  intros y Hy. apply H. now right.
Qed.

Lemma cleanWord_chars (w : jstr) (c : char) :
  In c (cleanWord w) -> (is_word c || is_ws c) = true /\ is_AZ c = false.
Proof.
  unfold cleanWord, toLowerCase. rewrite filter_In. intros [H Hc]. split; [exact Hc|].
  apply in_flat_map in H as (c0 & _ & H). revert H.
  unfold lower_char, is_AZ.
  repeat match goal with
  | |- context [if ?b then _ else _] => destruct b eqn:?
  end; cbn [In]; intros H;
  repeat match goal with
  | H : _ \/ _ |- _ => destruct H as [H|H]
  | H : False |- _ => destruct H
  end; subst; bool_facts; apply andb_false_iff;
  first [left; apply N.leb_gt; lia | right; apply N.leb_gt; lia].
Qed.

Lemma toggle_In_cw (l : list jstr) (w : jstr) :
  2 < length (cleanWord w) ->
  (In (cleanWord w) (toggleWordExclusion l w) <-> ~ In (cleanWord w) l).
Proof.
  intros Hl. unfold toggleWordExclusion.
  replace (Nat.leb (length (cleanWord w)) 2) with false
    by (symmetry; apply PeanoNat.Nat.leb_gt; lia).
  destruct (array_includes l (cleanWord w)) eqn:E.
  - apply array_includes_In in E. rewrite remove_In. tauto.
  - rewrite add_In. split; [|tauto]. intros _ H.
    apply array_includes_In in H. congruence.
Qed.

Lemma toggle_In_other (l : list jstr) (w x : jstr) :
  x <> cleanWord w -> (In x (toggleWordExclusion l w) <-> In x l).
Proof.
  intros Hx. unfold toggleWordExclusion.
  destruct (Nat.leb _ 2); [tauto|].
  destruct (array_includes l (cleanWord w)).
  - rewrite remove_In. tauto.
  - rewrite add_In. tauto.
Qed.

Lemma bool_of_iff (b1 b2 : bool) : (b1 = true <-> b2 = true) -> b1 = b2.
Proof. apply eq_iff_eq_true. Qed.

Lemma toggle_inv (l : list jstr) (w : jstr) :
  NoDup l -> (forall e, In e l -> excl_entry_ok e) ->
  NoDup (toggleWordExclusion l w) /\
  (forall e, In e (toggleWordExclusion l w) -> excl_entry_ok e).
Proof.
  intros Hd Hok. unfold toggleWordExclusion.
  destruct (Nat.leb (length (cleanWord w)) 2) eqn:Hl; [auto|].
  apply PeanoNat.Nat.leb_gt in Hl.
  destruct (array_includes l (cleanWord w)) eqn:E.
  - split; [now apply NoDup_filter|].
    intros e He. apply remove_In in He as [He _]. now apply Hok.
  - split.
    + unfold addToExcludeList. rewrite E. cbn [negb].
      apply Permutation.Permutation_NoDup with (cleanWord w :: l).
      * apply Permutation.Permutation_cons_append.
      * constructor; [|exact Hd]. intros H. apply array_includes_In in H. congruence.
    + intros e He. apply add_In in He as [He| ->]; [now apply Hok|].
      split; [exact Hl|apply cleanWord_chars].
Qed.

Lemma remove_inv (l : list jstr) (w : jstr) :
  NoDup l -> (forall e, In e l -> excl_entry_ok e) ->
  NoDup (removeFromExcludeList l w) /\
  (forall e, In e (removeFromExcludeList l w) -> excl_entry_ok e).
Proof.
  intros Hd Hok. split; [now apply NoDup_filter|].
  intros e He. apply remove_In in He as [He _]. now apply Hok.
Qed.

End ExcludeList.

Section EditDelete.

Lemma filter_index_above (l : list Vehicle) :
  forall k i, i < k -> filter_index k i l = l.
Proof.
  induction l as [|v t IH]; intros k i H; [reflexivity|].
  cbn [filter_index].
  replace (Nat.eqb k i) with false by (symmetry; apply PeanoNat.Nat.eqb_neq; lia).
  cbn [negb]. rewrite IH; [reflexivity|lia].
Qed.

Lemma filter_index_split (l : list Vehicle) :
  forall k i, k <= i -> filter_index k i l = firstn (i - k) l ++ skipn (S (i - k)) l.
Proof.
  induction l as [|v t IH]; intros k i H.
  - cbn. now rewrite firstn_nil.
  - cbn [filter_index]. destruct (Nat.eqb k i) eqn:E.
    + apply PeanoNat.Nat.eqb_eq in E. subst.
      rewrite PeanoNat.Nat.sub_diag. cbn. apply filter_index_above. lia.
    + apply PeanoNat.Nat.eqb_neq in E. cbn [negb].
      replace (i - k) with (S (i - S k)) by lia.
      rewrite IH by lia. reflexivity.
Qed.

End EditDelete.

Section Search.

Lemma join_neg_keywords (kws : list jstr) :
  forall kw, [32%N] ++ join [32%N] (map (fun k => 45%N :: k) (kw :: kws)) =
             concat (map (fun k => 32%N :: 45%N :: k) (kw :: kws)).
Proof.
  induction kws as [|k2 t IH]; intros kw.
  - cbn. now rewrite app_nil_r.
  - change (map (fun k => 45%N :: k) (kw :: k2 :: t))
      with ((45%N :: kw) :: map (fun k => 45%N :: k) (k2 :: t)).
    change (concat (map (fun k => 32%N :: 45%N :: k) (kw :: k2 :: t)))
      with ((32%N :: 45%N :: kw) ++ concat (map (fun k => 32%N :: 45%N :: k) (k2 :: t))).
    rewrite <- IH. reflexivity.
Qed.

End Search.

Section Provenance.

Lemma upper_char_not_az (c0 c : char) : In c (upper_char c0) -> is_az c = false.
Proof.
  unfold upper_char, is_az.
  repeat match goal with
  | |- context [if ?b then _ else _] => destruct b eqn:?
  end; cbn [In]; intros H;
  repeat match goal with
  | H : _ \/ _ |- _ => destruct H as [H|H]
  | H : False |- _ => destruct H
  end; subst; bool_facts; apply andb_false_iff;
  first [left; apply N.leb_gt; lia | right; apply N.leb_gt; lia].
Qed.

Lemma replace_class_in_cls (cls : char -> bool) (r : char) (s : jstr) (c : char) :
  In c (replace_class cls r s) -> (In c s /\ cls c = false) \/ c = r.
Proof.
  unfold replace_class. intros H. apply in_map_iff in H as (x & <- & Hx).
  destruct (cls x) eqn:E; auto.
Qed.

Lemma replace_runs_in (sep : char -> bool) (r : char) (s : jstr) :
  forall b c, In c (replace_runs sep r b s) -> (In c s /\ sep c = false) \/ c = r.
Proof.
  induction s as [|x t IH]; intros b c H; [destruct H|].
  cbn [replace_runs] in H. destruct (sep x) eqn:Ex; [destruct b|].
  - destruct (IH _ _ H) as [[H1 H2]|H1]; [left; split; [now right|exact H2]|now right].
  - destruct H as [<-|H]; [now right|].
    destruct (IH _ _ H) as [[H1 H2]|H1]; [left; split; [now right|exact H2]|now right].
  - destruct H as [<-|H]; [left; split; [now left|exact Ex]|].
    destruct (IH _ _ H) as [[H1 H2]|H1]; [left; split; [now right|exact H2]|now right].
Qed.

Lemma split_runs_aux_in_sep (sep : char -> bool) (s : jstr) :
  forall cur b piece c, In piece (split_runs_aux sep cur b s) -> In c piece ->
  In c cur \/ (In c s /\ sep c = false).
Proof.
  induction s as [|x t IH]; intros cur b piece c Hp Hc; cbn [split_runs_aux] in Hp.
  - destruct Hp as [<-|[]]. left. now apply in_rev.
  - destruct (sep x) eqn:Ex; [destruct b|].
    + destruct (IH _ _ _ _ Hp Hc) as [[]|[H1 H2]]. right. split; [now right|exact H2].
    + destruct Hp as [<-|Hp].
      * left. now apply in_rev.
      * destruct (IH _ _ _ _ Hp Hc) as [[]|[H1 H2]]. right. split; [now right|exact H2].
    + destruct (IH _ _ _ _ Hp Hc) as [[<-|H]|[H1 H2]].
      * right. split; [now left|exact Ex].
      * now left.
      * right. split; [now right|exact H2].
Qed.

Lemma in_skipn_in {A : Type} (n : nat) (l : list A) (x : A) :
  In x (skipn n l) -> In x l.
Proof.
  intros H. rewrite <- (firstn_skipn n l). apply in_or_app. now right.
Qed.

Lemma in_firstn_in {A : Type} (n : nat) (l : list A) (x : A) :
  In x (firstn n l) -> In x l.
Proof.
  intros H. rewrite <- (firstn_skipn n l). apply in_or_app. now left.
Qed.

Lemma extractYear_in (text : jstr) (yd : YearData) :
  extractYear text = Some yd ->
  (forall c, In c (yd_year yd) -> In c text \/ is_digit c = true) /\
  (forall c, In c (yd_restOfText yd) -> In c text).
Proof.
  unfold extractYear.
  destruct (find_four false 0 text) as [i|].
  - intros E. injection E as <-. cbn [yd_year yd_restOfText]. split.
    + intros c H. left. exact (in_skipn_in i text c (in_firstn_in 4 _ c H)).
    + intros c H. exact (in_skipn_in _ _ _ (trim_in _ _ H)).
  - destruct (find_two 0 text) as [i|]; [|discriminate].
    intros E. injection E as <-. cbn [yd_year yd_restOfText]. split.
    + intros c H. destruct (_ && _); cbn [In] in H;
        (destruct H as [<-|[<-|H]]; [right; reflexivity|right; reflexivity|]);
        left; exact (in_skipn_in (i + 1) text c (in_firstn_in 2 _ c H)).
    + intros c H. exact (in_skipn_in _ _ _ (trim_in _ _ H)).
Qed.

Lemma splitMakeModel_loop_in (u text : jstr) (makes : list jstr) (c : char) :
  In c (splitMakeModel_loop u text makes) ->
  In c text \/ c = 32%N \/ exists m, In m makes /\ In c m.
Proof.
  induction makes as [|m t IH]; cbn [splitMakeModel_loop]; [auto|].
  destruct (_ && _).
  - intros H. apply in_app_or in H as [H|[<-|H]].
    + right. right. exists m. split; [now left|exact H].
    + right. now left.
    + left. exact (in_skipn_in _ _ _ H).
  - intros H. destruct (IH H) as [H1|[H1|(m' & Hm & H1)]]; auto.
    right. right. exists m'. split; [now right|exact H1].
Qed.

Lemma cleanText_in (text : jstr) (c : char) :
  In c (cleanText text) ->
  (In c text /\ (is_word c = true \/ c = 45%N)) \/ c = 32%N.
Proof.
  unfold cleanText. intros H. apply trim_in in H.
  destruct (replace_class_in_cls _ _ _ _ H) as [[H1 H2]|H1]; [|now right].
  destruct (replace_runs_in _ _ _ _ _ H1) as [[H3 H4]|H3]; [|now right].
  left. split; [exact H3|].
  apply negb_false_iff in H2. rewrite H4, orb_false_r in H2.
  apply orb_prop in H2 as [H2|H2]; [now left|right; now apply N.eqb_eq].
Qed.

Lemma words_of_in (s w : jstr) (c : char) : In w (words_of s) -> In c w -> In c s.
Proof.
  unfold words_of, split_runs. intros Hw Hc. apply filter_In in Hw as [Hw _].
  destruct (split_runs_aux_in _ _ _ _ _ _ Hw Hc) as [[]|H]. exact H.
Qed.

Lemma join_in (sep : jstr) (l : list jstr) (c : char) :
  In c (join sep l) -> In c sep \/ exists w, In w l /\ In c w.
Proof.
  induction l as [|w t IH]; cbn [join]; [intros []|].
  destruct t as [|w2 t'].
  - intros H. right. exists w. split; [now left|exact H].
  - intros H. apply in_app_or in H as [H|H]; [right; exists w; split; [now left|exact H]|].
    apply in_app_or in H as [H|H]; [now left|].
    destruct (IH H) as [H1|(w' & Hw & H1)]; [now left|].
    right. exists w'. split; [now right|exact H1].
Qed.

Lemma tl_in (l : list jstr) (w : jstr) : In w (tl l) -> In w l.
Proof. destruct l as [|x t]; cbn; [intros []|now right]. Qed.

Lemma hd_in (l : list jstr) (c : char) : In c (hd [] l) -> exists w, In w l /\ In c w.
Proof. destruct l as [|w t]; cbn; [intros []|intros H; exists w; auto]. Qed.

(** Where the code units of a record come from: the trimmed line, the
    space, a decimal digit of the year, or a make of the list. *)
Lemma parse_line_fullText_in (skip : jstr -> bool) (line : jstr) (v : Vehicle) (c : char) :
  In v (parse_line_with skip line) -> In c (fullText v) ->
  In c (trim line) \/ c = 32%N \/ is_digit c = true \/
  exists m, In m COMMON_MAKES /\ In c m.
Proof.
  assert (Words : forall yd w, In w (words_of (cleanText (splitMakeModel (yd_restOfText yd)))) ->
            In c w -> extractYear (trim line) = Some yd ->
            In c (trim line) \/ c = 32%N \/ exists m, In m COMMON_MAKES /\ In c m).
  { intros yd w Hw Hc E. apply (words_of_in _ _ _ Hw) in Hc.
    destruct (cleanText_in _ _ Hc) as [[H _]|H]; [|now (right; left)].
    unfold splitMakeModel in H.
    destruct (splitMakeModel_loop_in _ _ _ _ H) as [H1|[H1|H1]]; auto.
    left. exact (proj2 (extractYear_in _ _ E) c H1). }
  unfold parse_line_with. cbv zeta.
  destruct (skip (trim line)); [intros []|].
  destruct (extractYear (trim line)) as [yd|] eqn:E.
  - assert (Y : In c (yd_year yd) -> In c (trim line) \/ is_digit c = true)
      by exact (proj1 (extractYear_in _ _ E) c).
    destruct (Nat.leb 2 _); [|destruct (Nat.eqb _ 1); [|intros []]];
      intros [<-|[]]; cbn [fullText app]; intros H.
    + apply in_app_or in H as [H|[<-|H]]; [destruct (Y H); tauto|tauto|].
      apply in_app_or in H as [H|H]; [|cbn [In] in H; destruct H as [<-|H]; [tauto|]].
      * destruct (hd_in _ _ H) as (w & Hw & Hc).
        destruct (Words yd w Hw Hc eq_refl) as [?|[?|?]]; tauto.
      * destruct (join_in _ _ _ H) as [[<-|[]]|(w & Hw & Hc)]; [tauto|].
        apply tl_in in Hw.
        destruct (Words yd w Hw Hc eq_refl) as [?|[?|?]]; tauto.
    + apply in_app_or in H as [H|[<-|H]]; [destruct (Y H); tauto|tauto|].
      destruct (hd_in _ _ H) as (w & Hw & Hc).
      destruct (Words yd w Hw Hc eq_refl) as [?|[?|?]]; tauto.
  - destruct (Nat.ltb 0 _); [|intros []]. intros [<-|[]]. cbn [fullText]. intros H.
    destruct (cleanText_in _ _ H) as [[H1 _]|H1]; tauto.
Qed.

Lemma lines_of_in (text l : jstr) (c : char) :
  In l (lines_of text) -> In c l -> is_nl c = false /\ In c (fixOCRErrors text).
Proof.
  unfold lines_of, split_runs. intros Hl Hc. apply filter_In in Hl as [Hl _].
  destruct (split_runs_aux_in_sep _ _ _ _ _ _ Hl Hc) as [[]|[H1 H2]]. auto.
Qed.

Lemma split_at_aux_app (sep : char) (w : jstr) :
  (forall c, In c w -> c <> sep) ->
  forall cur s, split_at_aux sep cur (w ++ s) = split_at_aux sep (rev w ++ cur) s.
Proof.
  induction w as [|x t IH]; intros Hw cur s; [reflexivity|].
  cbn [app split_at_aux].
  replace (x =? sep)%N with false
    by (symmetry; apply N.eqb_neq; apply Hw; now left).
  rewrite IH by (intros c Hc; apply Hw; now right).
  cbn [rev]. now rewrite <- app_assoc.
Qed.

Lemma split_at_join (sep : char) (l : list jstr) :
  l <> [] -> (forall w c, In w l -> In c w -> c <> sep) ->
  split_at sep (join [sep] l) = l.
Proof.
  unfold split_at. induction l as [|w t IH]; intros Hne Hl; [contradiction|].
  destruct t as [|w2 t'].
  - cbn [join]. rewrite <- (app_nil_r w) at 1.
    rewrite split_at_aux_app by (intros c Hc; apply (Hl w); [now left|exact Hc]).
    cbn [split_at_aux]. now rewrite app_nil_r, rev_involutive.
  - cbn [join]. rewrite split_at_aux_app by (intros c Hc; apply (Hl w); [now left|exact Hc]).
    cbn [app split_at_aux]. rewrite N.eqb_refl, app_nil_r, rev_involutive.
    f_equal. apply IH; [discriminate|].
    intros w' c Hw Hc. apply (Hl w'); [now right|exact Hc].
Qed.

Lemma parse_line_length (skip : jstr -> bool) (line : jstr) :
  length (parse_line_with skip line) <= 1.
Proof.
  unfold parse_line_with. destruct (skip (trim line)); [cbn; lia|].
  destruct (extractYear (trim line)).
  - destruct (Nat.leb 2 _); [cbn; lia|]. destruct (Nat.eqb _ 1); cbn; lia.
  - destruct (Nat.ltb 0 _); cbn; lia.
Qed.

Lemma drop_ws_hd (s : jstr) :
  forall c, hd_error (drop_ws s) = Some c -> is_ws c = false.
Proof.
  induction s as [|x t IH]; cbn [drop_ws]; [discriminate|].
  destruct (is_ws x) eqn:E; [exact IH|].
  cbn. intros c H. injection H as <-. exact E.
Qed.

Lemma drop_ws_suffix (s : jstr) : exists p, s = p ++ drop_ws s.
Proof.
  induction s as [|x t IH]; [now exists []|].
  cbn [drop_ws]. destruct (is_ws x).
  - destruct IH as [p E]. exists (x :: p). cbn. now f_equal.
  - now exists [].
Qed.

Lemma trim_edges (s : jstr) :
  (forall c, hd_error (trim s) = Some c -> is_ws c = false) /\
  (forall c, hd_error (rev (trim s)) = Some c -> is_ws c = false).
Proof.
  unfold trim. rewrite rev_involutive. split; [|apply drop_ws_hd].
  intros c H.
  destruct (drop_ws_suffix (rev (drop_ws s))) as [p E].
  destruct (drop_ws (rev (drop_ws s))) as [|x r] eqn:D; [discriminate|].
  apply drop_ws_hd with (s := s).
  rewrite <- (rev_involutive (drop_ws s)), E, rev_app_distr.
  cbn [rev] in H |- *. rewrite <- app_assoc.
  destruct (rev r) as [|y r']; cbn in H |- *; exact H.
Qed.

(** The code units [fixOCRErrors] never leaves in its output. *)
Definition norm_unit (c : char) : bool :=
  negb (is_az c) && negb (c =? 124)%N && negb (c =? 167)%N.

Lemma fixOCRErrors_units (text : jstr) (c : char) :
  In c (fixOCRErrors text) -> norm_unit c = true.
Proof.
  unfold fixOCRErrors. intros H.
  destruct (replace_O_in _ _ _ H) as [H1| ->]; [|reflexivity].
  destruct (replace_class_in_cls _ _ _ _ H1) as [[H2 N2]| ->]; [|reflexivity].
  destruct (replace_class_in_cls _ _ _ _ H2) as [[H3 N3]| ->]; [|reflexivity].
  destruct (replace_JOI_in _ _ _ _ (le_n _) H3) as [H4|[->|[->| ->]]];
    try reflexivity.
  unfold toUpperCase in H4. apply in_flat_map in H4 as (c0 & _ & H4).
  unfold norm_unit. rewrite (upper_char_not_az _ _ H4), N2, N3. reflexivity.
Qed.

Lemma parseVehicles_units (text : jstr) (v : Vehicle) (c : char) :
  In v (parseVehicles text) -> In c (fullText v) ->
  is_nl c = false /\ norm_unit c = true.
Proof.
  intros Hv Hc. apply parseVehicles_in in Hv as (line & Hl & Hv).
  destruct (parse_line_fullText_in _ _ _ _ Hv Hc) as [H|[->|[H|(m & Hm & H)]]].
  - apply trim_in in H. destruct (lines_of_in _ _ _ Hl H) as [N1 H1].
    split; [exact N1|exact (fixOCRErrors_units _ _ H1)].
  - split; reflexivity.
  - apply is_digit_bounds in H. unfold is_nl, norm_unit, is_az.
    repeat match goal with
    | |- context [(?a =? ?b)%N] => replace (a =? b)%N with false
        by (symmetry; apply N.eqb_neq; lia)
    end.
    replace (97 <=? c)%N with false by (symmetry; apply N.leb_gt; lia).
    split; reflexivity.
  - assert (M : forallb (fun m => forallb (fun c => negb (is_nl c) && norm_unit c) m)
                  COMMON_MAKES = true) by (vm_compute; reflexivity).
    rewrite forallb_forall in M. specialize (M m Hm).
    rewrite forallb_forall in M. specialize (M c H).
    apply andb_prop in M as [M1 M2]. split; [now apply negb_true_iff|exact M2].
Qed.

Lemma words_of_word (s w : jstr) :
  In w (words_of s) -> w <> [] /\ forall c, In c w -> is_ws c = false.
Proof.
  unfold words_of, split_runs. intros Hw. apply filter_In in Hw as [Hw Hl].
  split.
  - intros ->. discriminate Hl.
  - intros c Hc. destruct (split_runs_aux_in_sep _ _ _ _ _ _ Hw Hc) as [[]|[_ H]].
    exact H.
Qed.

Lemma join_nonempty (sep : jstr) (l : list jstr) :
  l <> [] -> (forall w, In w l -> w <> []) -> join sep l <> [].
Proof.
  destruct l as [|w t]; intros Hne Hw; [contradiction|].
  assert (W : w <> []) by (apply Hw; now left).
  destruct t as [|w2 t']; cbn [join]; [exact W|].
  destruct w; [contradiction|discriminate].
Qed.

End Provenance.

(** ** Properties of the code beyond the claims *)

Module Extras.

(** The vehicle of the witnesses below. *)
Definition chevy : Vehicle :=
  {| year := js "2015"%string; make := js "CHEVROLET"%string;
     model := js "IMPALA"%string; fullText := js "2015 CHEVROLET IMPALA"%string |}.

(** Exclusion list: whatever the presses on title words and on tags, the
    [excludeList] state never holds a string twice, and each of its
    strings has more than two code units, all [\w] or white space, none
    a capital ASCII letter. *)
Theorem exclude_run_invariant (events : list ExcludeEvent) :
  NoDup (exclude_run events) /\
  forall e, In e (exclude_run events) -> excl_entry_ok e.
Proof.
  unfold exclude_run.
  assert (G : forall l, NoDup l -> (forall e, In e l -> excl_entry_ok e) ->
            NoDup (fold_left exclude_step events l) /\
            forall e, In e (fold_left exclude_step events l) -> excl_entry_ok e).
  { induction events as [|ev t IH]; intros l Hd Hok; [auto|].
    cbn [fold_left]. destruct ev as [w|w]; cbn [exclude_step];
      [destruct (toggle_inv l w Hd Hok)|destruct (remove_inv l w Hd Hok)]; auto. }
  apply G; [constructor|intros e []].
Qed.

(** Toggling the same word twice: for a word whose cleaned form has more
    than two code units, the list comes back when that form was not in
    it; when it was, the form is removed and then appended, so it moves
    to the end of the list. *)
Theorem toggle_twice (l : list jstr) (w : jstr) :
  2 < length (cleanWord w) ->
  (~ In (cleanWord w) l ->
     toggleWordExclusion (toggleWordExclusion l w) w = l) /\
  (In (cleanWord w) l ->
     toggleWordExclusion (toggleWordExclusion l w) w =
       removeFromExcludeList l (cleanWord w) ++ [cleanWord w]).
Proof.
  intros Hl.
  assert (T : forall l', toggleWordExclusion l' w =
            if array_includes l' (cleanWord w)
            then removeFromExcludeList l' (cleanWord w)
            else l' ++ [cleanWord w]).
  { intros l'. unfold toggleWordExclusion.
    replace (Nat.leb (length (cleanWord w)) 2) with false
      by (symmetry; apply PeanoNat.Nat.leb_gt; lia).
    unfold addToExcludeList. now destruct (array_includes l' (cleanWord w)). }
  split; intros Hin.
  - assert (E : array_includes l (cleanWord w) = false)
      by (apply not_true_iff_false; now rewrite array_includes_In).
    rewrite (T l), E, T.
    assert (E2 : array_includes (l ++ [cleanWord w]) (cleanWord w) = true)
      by (apply array_includes_In, in_or_app; right; now left).
    rewrite E2. unfold removeFromExcludeList. rewrite filter_app.
    cbn [filter]. rewrite (proj2 (jstr_eqb_true _ _) eq_refl). cbn [negb].
    rewrite app_nil_r. apply filter_all_true.
    intros x Hx. apply negb_true_iff, not_true_iff_false.
    intros E3. apply jstr_eqb_true in E3. subst. contradiction.
  - assert (E : array_includes l (cleanWord w) = true) by now apply array_includes_In.
    rewrite (T l), E, T.
    assert (E2 : array_includes (removeFromExcludeList l (cleanWord w)) (cleanWord w)
                 = false).
    { apply not_true_iff_false. rewrite array_includes_In, remove_In. tauto. }
    now rewrite E2.
Qed.

Lemma toggle_twice_witness :
  2 < length (cleanWord (js "Impala,"%string)) /\
  toggleWordExclusion
    (toggleWordExclusion [js "rust"%string] (js "Impala,"%string))
    (js "Impala,"%string) = [js "rust"%string].
Proof.
  split; [vm_compute; lia|].
  apply (proj1 (toggle_twice [js "rust"%string] (js "Impala,"%string)
                  ltac:(vm_compute; lia))).
  vm_compute. intros [H|[]]. discriminate.
Defined.

(** Pressing a title word re-renders the title with the same words; the
    [isExcluded] flag flips on every word whose cleaned form is that of
    the pressed word and stays on every other word (pressed word with a
    cleaned form longer than two code units). *)
Theorem tokenize_after_toggle (l : list jstr) (title w : jstr) :
  2 < length (cleanWord w) ->
  map tk_word (tokenizeTitle (toggleWordExclusion l w) title) =
    map tk_word (tokenizeTitle l title) /\
  map tk_isExcluded (tokenizeTitle (toggleWordExclusion l w) title) =
    map (fun t => if jstr_eqb (cleanWord (tk_word t)) (cleanWord w)
                  then negb (tk_isExcluded t) else tk_isExcluded t)
        (tokenizeTitle l title).
Proof.
  intros Hl. unfold tokenizeTitle. rewrite !map_map. split; [reflexivity|].
  apply map_ext. intros x. cbn [tk_word tk_isExcluded].
  destruct (jstr_eqb (cleanWord x) (cleanWord w)) eqn:E.
  - apply jstr_eqb_true in E. rewrite E.
    apply bool_of_iff. rewrite negb_true_iff, array_includes_In, toggle_In_cw by exact Hl.
    rewrite <- not_true_iff_false, array_includes_In. tauto.
  - apply bool_of_iff. rewrite !array_includes_In. apply toggle_In_other.
    intros E2. rewrite E2, (proj2 (jstr_eqb_true _ _) eq_refl) in E. discriminate.
Qed.

Lemma tokenize_after_toggle_witness :
  2 < length (cleanWord (js "rusty!"%string)) /\
  map tk_isExcluded
    (tokenizeTitle (toggleWordExclusion [] (js "rusty!"%string))
       (js "Rusty door, RUSTY hood"%string)) = [true; false; true; false].
Proof.
  split; [vm_compute; lia|].
  rewrite (proj2 (tokenize_after_toggle [] (js "Rusty door, RUSTY hood"%string)
                    (js "rusty!"%string) ltac:(vm_compute; lia))).
  vm_compute. reflexivity.
Defined.

(** [handleDelete] removes exactly the record at [index]: the records
    before it, then those after it.  An index past the end leaves the
    list as it is; otherwise the list is one record shorter. *)
Theorem handleDelete_spec (vehicles : list Vehicle) (index : nat) :
  handleDelete vehicles index = firstn index vehicles ++ skipn (S index) vehicles /\
  length (handleDelete vehicles index) =
    (if Nat.ltb index (length vehicles) then length vehicles - 1
     else length vehicles) /\
  (length vehicles <= index -> handleDelete vehicles index = vehicles).
Proof.
  assert (E : handleDelete vehicles index =
              firstn index vehicles ++ skipn (S index) vehicles).
  { unfold handleDelete. rewrite filter_index_split by lia.
    now rewrite PeanoNat.Nat.sub_0_r. }
  split; [exact E|]. split.
  - rewrite E, length_app, length_firstn, length_skipn.
    destruct (Nat.ltb index (length vehicles)) eqn:H;
      [apply PeanoNat.Nat.ltb_lt in H|apply PeanoNat.Nat.ltb_ge in H]; lia.
  - intros H. rewrite E, firstn_all2, skipn_all2 by lia. apply app_nil_r.
Qed.

(** [handleEdit] at a position of the list keeps its length and every
    other record, and at [index] replaces only [fullText]: the [year],
    [make] and [model] fields keep the values parsed from the old text. *)
Theorem handleEdit_spec (vehicles : list Vehicle) (index : nat) (newText : jstr) :
  index < length vehicles ->
  exists v updated,
    nth_error vehicles index = Some v /\
    handleEdit vehicles index newText = Some updated /\
    length updated = length vehicles /\
    nth_error updated index =
      Some {| year := year v; make := make v; model := model v; fullText := newText |} /\
    forall j, j <> index -> nth_error updated j = nth_error vehicles j.
Proof.
  intros H. destruct (nth_error vehicles index) as [v|] eqn:Ev;
    [|apply nth_error_None in Ev; lia].
  unfold handleEdit. rewrite Ev.
  eexists v, _. split; [reflexivity|]. split; [reflexivity|].
  assert (Lf : length (firstn index vehicles) = index)
    by (rewrite length_firstn; lia).
  split; [|split].
  - cbn [length]. rewrite length_app, Lf. cbn [length]. rewrite length_skipn. lia.
  - rewrite nth_error_app2 by lia. rewrite Lf, PeanoNat.Nat.sub_diag. reflexivity.
  - intros j Hj. destruct (PeanoNat.Nat.lt_ge_cases j index) as [Hlt|Hge].
    + rewrite nth_error_app1 by lia. rewrite nth_error_firstn.
      destruct (Nat.ltb j index) eqn:E; [reflexivity|].
      apply PeanoNat.Nat.ltb_ge in E. lia.
    + rewrite nth_error_app2 by lia. rewrite Lf.
      destruct (j - index) as [|k] eqn:Ek; [lia|].
      cbn [nth_error]. rewrite nth_error_skipn. f_equal. lia.
Qed.

Lemma handleEdit_spec_witness :
  0 < length [chevy] /\
  handleEdit [chevy] 0 (js "2016 CHEVROLET MALIBU"%string) =
    Some [{| year := js "2015"%string; make := js "CHEVROLET"%string;
             model := js "IMPALA"%string;
             fullText := js "2016 CHEVROLET MALIBU"%string |}].
Proof.
  split; [cbn; lia|].
  destruct (handleEdit_spec [chevy] 0 (js "2016 CHEVROLET MALIBU"%string)
              ltac:(cbn; lia)) as (v & u & Ev & Eu & _).
  cbn in Ev. injection Ev as <-. vm_compute. reflexivity.
Defined.

(** The query sent to the Browse API: the search text, then for each
    excluded keyword in order a space, a minus sign and the keyword; with
    no keyword the text is sent as it is. *)
Theorem buildSearchQuery_shape (query : jstr) (excludeKeywords : list jstr) :
  buildSearchQuery query excludeKeywords =
    query ++ concat (map (fun kw => 32%N :: 45%N :: kw) excludeKeywords).
Proof.
  destruct excludeKeywords as [|kw kws].
  - cbn. now rewrite app_nil_r.
  - unfold buildSearchQuery. cbn [length Nat.ltb Nat.leb].
    rewrite <- join_neg_keywords. reflexivity.
Qed.

(** After a request that fetched the token [t] with lifetime [expires_in]
    seconds, read back at [now_after], a later call at time [x] returns
    [t] without a request while [t] is not empty and
    [x < now_after + (expires_in - 300) * 1000]; otherwise it requests a
    new token and its outcome is that of a call with an empty cache.  So
    with [expires_in <= 300] the token is never reused after
    [now_after]. *)
Theorem token_reuse_window (st : TokenCache) (now now_after : Z) (t : jstr)
    (expires_in x x_after : Z) (resp : OAuthResponse) :
  truthy (cachedToken st) && (now <? tokenExpiry st)%Z = false ->
  let st1 := snd (getAccessToken st now now_after (OAuthOk t expires_in)) in
  fst (getAccessToken st now now_after (OAuthOk t expires_in)) = Ok t /\
  (t <> [] -> (x < now_after + (expires_in - 300) * 1000)%Z ->
     getAccessToken st1 x x_after resp = (Ok t, st1)) /\
  (t = [] \/ (now_after + (expires_in - 300) * 1000 <= x)%Z ->
     fst (getAccessToken st1 x x_after resp) =
     fst (getAccessToken initialCache x x_after resp)) /\
  ((expires_in <= 300)%Z -> (now_after <= x)%Z ->
     fst (getAccessToken st1 x x_after resp) =
     fst (getAccessToken initialCache x x_after resp)).
Proof.
  intros Hs.
  assert (E : getAccessToken st now now_after (OAuthOk t expires_in) =
              (Ok t, {| cachedToken := Some t;
                        tokenExpiry := (now_after + (expires_in - 300) * 1000)%Z |})).
  { unfold getAccessToken.
    destruct (cachedToken st) as [tok|]; [|reflexivity].
    cbn [truthy] in Hs |- *. now rewrite Hs. }
  cbv zeta. rewrite E. cbn [fst snd].
  assert (Miss : truthy (Some t) &&
                 (x <? now_after + (expires_in - 300) * 1000)%Z = false ->
                 fst (getAccessToken {| cachedToken := Some t;
                        tokenExpiry := (now_after + (expires_in - 300) * 1000)%Z |}
                        x x_after resp) =
                 fst (getAccessToken initialCache x x_after resp)).
  { intros Hm. unfold getAccessToken. cbn [cachedToken tokenExpiry]. rewrite Hm.
    destruct resp; reflexivity. }
  split; [reflexivity|]. split; [|split].
  - intros Ht Hx. unfold getAccessToken. cbn [cachedToken tokenExpiry].
    destruct t as [|c t']; [contradiction|].
    cbn [truthy andb]. now rewrite (proj2 (Z.ltb_lt _ _) Hx).
  - intros [-> | Hx]; apply Miss; [reflexivity|].
    apply andb_false_iff. right. now apply Z.ltb_ge.
  - intros He Hx. apply Miss. apply andb_false_iff. right. apply Z.ltb_ge. lia.
Qed.

Lemma token_reuse_window_witness :
  getAccessToken initialCache 0 500 (OAuthOk (js "tok"%string) 7200) = 
    (Ok (js "tok"%string),
     {| cachedToken := Some (js "tok"%string); tokenExpiry := 6900500 |}) /\
  getAccessToken {| cachedToken := Some (js "tok"%string); tokenExpiry := 6900500 |}
    60000 60000 (OAuthFail (PlainError [])) =
    (Ok (js "tok"%string),
     {| cachedToken := Some (js "tok"%string); tokenExpiry := 6900500 |}).
Proof.
  destruct (token_reuse_window initialCache 0 500 (js "tok"%string) 7200 60000 60000
              (OAuthFail (PlainError [])) eq_refl) as [H1 [H2 _]].
  split; [reflexivity|].
  exact (H2 ltac:(discriminate) ltac:(lia)).
Defined.

(** When the cache cannot serve and the OAuth request throws, whether
    an Axios error or not, [getAccessToken] leaves the cache as it was
    and throws an [Error] that is not an Axios error; the [catch] of
    [searchEbay] then throws the generic ["Failed to search eBay"], so
    the OAuth message is not passed on, and no search request is made. *)
Theorem search_oauth_failure {Item : Type} (st : TokenCache) (now now_after : Z)
    (error : JsError) (browse : SearchRequest -> SearchResponse Item)
    (query : jstr) (excludeKeywords : list jstr) (limit : N) :
  truthy (cachedToken st) && (now <? tokenExpiry st)%Z = false ->
  (exists msg, getAccessToken st now now_after (OAuthFail error) =
               (Err (PlainError msg), st)) /\
  searchEbay st now now_after (OAuthFail error) browse query excludeKeywords limit =
    (Err (PlainError (js "Failed to search eBay"%string)), st).
Proof.
  intros Hs.
  assert (C : exists msg, oauth_catch error = PlainError msg).
  { unfold oauth_catch. destruct (isAxiosError error); eexists; reflexivity. }
  destruct C as [msg C].
  assert (E : getAccessToken st now now_after (OAuthFail error) = (Err (PlainError msg), st)).
  { unfold getAccessToken. rewrite <- C.
    destruct (cachedToken st) as [tok|]; [|reflexivity].
    cbn [truthy] in Hs. destruct tok; cbn [andb] in Hs |- *; [reflexivity|].
    now rewrite Hs. }
  split; [now exists msg|].
  unfold searchEbay. rewrite E. reflexivity.
Qed.

Lemma search_oauth_failure_witness :
  getAccessToken initialCache 0 0
    (OAuthFail (AxiosError (Some (js "invalid_client"%string)) None (js "401"%string))) =
    (Err (PlainError (js "eBay OAuth failed: invalid_client"%string)), initialCache) /\
  searchEbay (Item := jstr) initialCache 0 0
    (OAuthFail (AxiosError (Some (js "invalid_client"%string)) None (js "401"%string)))
    (fun _ => SearchOk (Some [js "item"%string])) (js "2015 FORD F150"%string) [] 20 =
    (Err (PlainError (js "Failed to search eBay"%string)), initialCache).
Proof.
  split; [vm_compute; reflexivity|].
  apply (proj2 (search_oauth_failure initialCache 0 0
                  (AxiosError (Some (js "invalid_client"%string)) None (js "401"%string))
                  (fun _ => SearchOk (Some [js "item"%string]))
                  (js "2015 FORD F150"%string) [] 20 eq_refl)).
Defined.

(** [fixOCRErrors] leaves no lower-case ASCII letter, no ['|'] and no
    ['\u00A7'] in the text it returns. *)
Theorem fixOCRErrors_normalised (text : jstr) (c : char) :
  In c (fixOCRErrors text) ->
  is_az c = false /\ c <> 124%N /\ c <> 167%N.
Proof.
  intros H. apply fixOCRErrors_units in H. unfold norm_unit in H. bool_facts.
  repeat split; auto.
Qed.

Lemma fixOCRErrors_normalised_witness :
  In 65%N (fixOCRErrors (js "a|b"%string)) /\
  (is_az 65%N = false /\ 65%N <> 124%N /\ 65%N <> 167%N).
Proof.
  assert (H : In 65%N (fixOCRErrors (js "a|b"%string))) by (vm_compute; auto).
  split; [exact H|exact (fixOCRErrors_normalised _ _ H)].
Defined.

(** [cleanText] returns only [\w] code units, spaces and ['-']; its first
    and its last code unit are not a space. *)
Theorem cleanText_shape (text : jstr) :
  (forall c, In c (cleanText text) -> is_word c = true \/ c = 32%N \/ c = 45%N) /\
  (forall c, hd_error (cleanText text) = Some c -> is_word c = true \/ c = 45%N) /\
  (forall c, hd_error (rev (cleanText text)) = Some c -> is_word c = true \/ c = 45%N).
Proof.
  assert (A : forall c, In c (cleanText text) -> is_word c = true \/ c = 32%N \/ c = 45%N).
  { intros c H. destruct (cleanText_in _ _ H) as [[_ [H1|H1]]|H1]; auto. }
  assert (B : forall c, In c (cleanText text) -> is_ws c = false ->
            is_word c = true \/ c = 45%N).
  { intros c H W. destruct (A c H) as [H1|[->|H1]]; auto; discriminate W. }
  destruct (trim_edges (replace_class (fun c => negb (is_word c || is_ws c || (c =? 45)%N))
              32%N (replace_runs is_ws 32%N false text))) as [E1 E2].
  split; [exact A|split].
  - intros c Hc. apply B; [|exact (E1 c Hc)].
    destruct (cleanText text) as [|x r]; [discriminate|]. injection Hc as ->. now left.
  - intros c Hc. apply B; [|exact (E2 c Hc)].
    apply in_rev. destruct (rev (cleanText text)) as [|x r]; [discriminate|].
    injection Hc as ->. now left.
Qed.

(** Every record of [parseVehicles] has a [fullText] without line break,
    lower-case ASCII letter, ['|'] or ['\u00A7']. *)
Theorem parseVehicles_fullText_units (text : jstr) (v : Vehicle) (c : char) :
  In v (parseVehicles text) -> In c (fullText v) ->
  is_nl c = false /\ is_az c = false /\ c <> 124%N /\ c <> 167%N.
Proof.
  intros Hv Hc. destruct (parseVehicles_units _ _ _ Hv Hc) as [N1 N2].
  unfold norm_unit in N2. bool_facts.
  repeat split; auto.
Qed.

Lemma parseVehicles_fullText_units_witness :
  In {| year := js "2015"%string; make := js "CHEVROLET"%string;
        model := js "IMPALA"%string; fullText := js "2015 CHEVROLET IMPALA"%string |}
     (parseVehicles (js "2015 chevrolet impala"%string)) /\
  In 67%N (js "2015 CHEVROLET IMPALA"%string) /\
  (is_nl 67%N = false /\ is_az 67%N = false /\ 67%N <> 124%N /\ 67%N <> 167%N).
Proof.
  assert (H1 : In {| year := js "2015"%string; make := js "CHEVROLET"%string;
        model := js "IMPALA"%string; fullText := js "2015 CHEVROLET IMPALA"%string |}
     (parseVehicles (js "2015 chevrolet impala"%string))) by (vm_compute; auto).
  assert (H2 : In 67%N (js "2015 CHEVROLET IMPALA"%string)) by (vm_compute; auto 10).
  split; [exact H1|split; [exact H2|]].
  exact (parseVehicles_fullText_units _ _ _ H1 H2).
Defined.

(** [formatVehicleList] of a non-empty result of [parseVehicles] can be
    split back at ['\n'] into the [fullText] of each record, in order. *)
Theorem formatVehicleList_split (text : jstr) :
  parseVehicles text <> [] ->
  split_at 10%N (formatVehicleList (parseVehicles text)) =
    map fullText (parseVehicles text).
Proof.
  intros Hne. unfold formatVehicleList. apply split_at_join.
  - destruct (parseVehicles text); [contradiction|discriminate].
  - intros w c Hw Hc E. subst c. apply in_map_iff in Hw as (v & <- & Hv).
    destruct (parseVehicles_units _ _ _ Hv Hc) as [N1 _]. discriminate N1.
Qed.

Lemma formatVehicleList_split_witness :
  parseVehicles (js "2015 FORD F150"%string ++ [13%N; 10%N]
                 ++ js "99 DODGE RAM"%string) <> [] /\
  split_at 10%N (formatVehicleList (parseVehicles (js "2015 FORD F150"%string ++ [13%N; 10%N]
                 ++ js "99 DODGE RAM"%string))) =
    [js "2015 FORD F150"%string; js "99 DODGE RAM"%string].
Proof.
  assert (H : parseVehicles (js "2015 FORD F150"%string ++ [13%N; 10%N]
                 ++ js "99 DODGE RAM"%string) <> []) by (vm_compute; discriminate).
  split; [exact H|]. rewrite (formatVehicleList_split _ H). vm_compute. reflexivity.
Defined.

(** [parseVehicles] adds at most one record per non-blank line. *)
Theorem parseVehicles_length (text : jstr) :
  length (parseVehicles text) <= length (lines_of text).
Proof.
  rewrite parseVehicles_flat_map. induction (lines_of text) as [|l t IH]; [cbn; lia|].
  cbn [flat_map]. rewrite length_app. cbn [length].
  assert (P : length (parse_line l) <= 1) by apply parse_line_length. lia.
Qed.

(** A record of [parseVehicles] either has no year, make or model, or
    has a make that is one non-empty word without white space, and then
    its [fullText] is the year, a space, the make, and, when the model is
    not empty, a space and the model. *)
Theorem record_layout (text : jstr) (v : Vehicle) :
  In v (parseVehicles text) ->
  (year v = [] /\ make v = [] /\ model v = []) \/
  (make v <> [] /\ (forall c, In c (make v) -> is_ws c = false) /\
   fullText v = year v ++ [32%N] ++ make v ++
                match model v with [] => [] | m => 32%N :: m end).
Proof.
  intros Hv. apply parseVehicles_in in Hv as (line & _ & Hv).
  unfold parse_line, parse_line_with in Hv. cbv zeta in Hv.
  destruct (skip_line (trim line)); [destruct Hv|].
  destruct (extractYear (trim line)) as [yd|].
  - set (ws := words_of (cleanText (splitMakeModel (yd_restOfText yd)))) in Hv.
    assert (Wd : forall w, In w ws -> w <> [] /\ forall c, In c w -> is_ws c = false)
      by (intros w Hw; exact (words_of_word _ _ Hw)).
    destruct ws as [|w0 t] eqn:Ews.
    + cbn in Hv. destruct Hv.
    + destruct (Wd w0 (or_introl eq_refl)) as [W1 W2].
      destruct t as [|w1 t'].
      * cbn in Hv. destruct Hv as [<-|[]]. right. cbn [make model fullText year].
        split; [exact W1|split; [exact W2|]]. now rewrite app_nil_r.
      * cbn [length Nat.leb hd tl] in Hv. destruct Hv as [<-|[]].
        right. cbn [make model fullText year]. split; [exact W1|split; [exact W2|]].
        assert (M : join [32%N] (w1 :: t') <> []).
        { apply join_nonempty; [discriminate|].
          intros w Hw. apply (Wd w). now right. }
        destruct (join [32%N] (w1 :: t')) as [|m r]; [contradiction|]. reflexivity.
  - destruct (Nat.ltb 0 _); [|destruct Hv]. destruct Hv as [<-|[]].
    left. cbn. auto.
Qed.

Lemma record_layout_witness :
  In {| year := js "2015"%string; make := js "CHEVROLET"%string;
        model := js "IMPALA"%string; fullText := js "2015 CHEVROLET IMPALA"%string |}
     (parseVehicles (js "2015 chevrolet impala"%string)) /\
  js "2015 CHEVROLET IMPALA"%string =
    js "2015"%string ++ [32%N] ++ js "CHEVROLET"%string ++ 32%N :: js "IMPALA"%string.
Proof.
  assert (H : In {| year := js "2015"%string; make := js "CHEVROLET"%string;
        model := js "IMPALA"%string; fullText := js "2015 CHEVROLET IMPALA"%string |}
     (parseVehicles (js "2015 chevrolet impala"%string))) by (vm_compute; auto).
  split; [exact H|].
  destruct (record_layout _ _ H) as [[Y _]|(_ & _ & E)]; [discriminate Y|exact E].
Defined.

End Extras.
